(** * DSP bench: square-wave generator, peaking-EQ biquads and the buffer sweep

    Shallow embedding of [src/cpp/src/main.cc].

    - [double] arithmetic is kept abstract: the code is written once over a
      type [D] carrying the operations the program applies to doubles (class
      [Real64]) and the libm calls it makes (class [Libm]).  Nothing is
      assumed about these operations, so every statement proved for all
      instances holds for IEEE binary64 as much as for the reals.  Two
      instances are given: the exact reals [R] (used where a statement needs
      the laws of arithmetic) and the primitive binary64 floats (used to run
      the recurrence on concrete data).
    - [unsigned int] and [size_t] values are integers in [Z] with their
      wrap-around written out ([uint_succ], [size_succ]).
    - [vector<double>] and [vector<Biquad>] are lists, read with [!!] and
      overwritten in place with [<[i:=v]>].
    - A loop is a fixpoint on a fuel argument that tests the loop condition
      of the source; a call returns [None] when the C++ program has no
      defined result (a loop that cannot exit, an index past the end of a
      vector, a [double] outside the range of [size_t]). *)

From Stdlib Require Import ZArith Reals Lra Lia.
From Stdlib Require Import Numbers.Cyclic.Int63.Uint63.
From Stdlib Require Import Floats.PrimFloat Floats.SpecFloat Floats.FloatOps.
From Stdlib Require Import Floats.FloatAxioms.
From stdpp Require Import base option list.

Local Open Scope Z_scope.

(** ** Machine integers *)

Module Machine.

Definition UINT_MOD : Z := 2 ^ 32.
Definition SIZE_MOD : Z := 2 ^ 64.

(** [i++] on an [unsigned int]. *)
Definition uint_succ (i : Z) : Z := (i + 1) mod UINT_MOD.

(** [p++] on a [size_t]. *)
Definition size_succ (p : Z) : Z := (p + 1) mod SIZE_MOD.

(** Assignment of an integer value to an [unsigned int]. *)
Definition to_uint (z : Z) : Z := z mod UINT_MOD.

(** Conversion of an integral [double] to [size_t]: defined only when the
    value is representable. *)
Definition to_size_t (z : Z) : option Z :=
  if (0 <=? z) && (z <? SIZE_MOD) then Some z else None.

(** The buffer sizes for which [unsigned int i] can count up to [size()]. *)
Definition fits_uint (n : nat) : Prop := Z.of_nat n < UINT_MOD.

End Machine.
Import Machine.

(** ** The arithmetic interface *)

(** The operations [main.cc] applies to [double] values. *)
Class Real64 (D : Type) : Type := {
  dadd : D -> D -> D;
  dsub : D -> D -> D;
  dmul : D -> D -> D;
  ddiv : D -> D -> D;
  dneg : D -> D;
  (** an integer-valued literal ([0.0], [2.0], [48000.0]) or an [int]
      promoted to [double] ([1], [2], [-2]) *)
  dint : Z -> D;
  (** a decimal literal, numerator over denominator: [0.5] is [ddec 5 10],
      [0.3] is [ddec 3 10] *)
  ddec : Z -> positive -> D;
  (** conversion to an integer type: the value with its fraction dropped,
      none for a NaN or an infinity *)
  dtrunc : D -> option Z
}.

(** The [<cmath>] calls of [main.cc]; [M_PIl] is the constant of that name. *)
Class Libm (D : Type) : Type := {
  dsin : D -> D;
  dcos : D -> D;
  dpow : D -> D -> D;
  dround : D -> D;
  M_PIl : D
}.

Declare Scope dbl_scope.
Delimit Scope dbl_scope with D.
Infix "+" := dadd : dbl_scope.
Infix "-" := dsub : dbl_scope.
Infix "*" := dmul : dbl_scope.
Infix "/" := ddiv : dbl_scope.
Notation "- x" := (dneg x) : dbl_scope.

(** *** Exact reals *)

(** [round]: to the nearest integer, halfway cases away from zero. *)
Definition c_round (x : R) : Z :=
  if Rle_dec 0 x then Zfloor (x + / 2) else Zceil (x - / 2).

(** Truncation toward zero. *)
Definition c_trunc (x : R) : Z :=
  if Rle_dec 0 x then Zfloor x else Zceil x.

#[export] Instance Real64_R : Real64 R := {|
  dadd := Rplus; dsub := Rminus; dmul := Rmult; ddiv := Rdiv; dneg := Ropp;
  dint := IZR; ddec := fun n d => (IZR n / IZR (Z.pos d))%R;
  dtrunc := fun x => Some (c_trunc x)
|}.

#[export] Instance Libm_R : Libm R := {|
  dsin := sin; dcos := cos; dpow := Rpower;
  dround := fun x => IZR (c_round x); M_PIl := PI
|}.

(** *** IEEE binary64 *)

(** Integers of magnitude below 2^53, the only ones the program writes as
    literals, are exact in binary64. *)
Definition float_of_Z (z : Z) : float :=
  match z with
  | Z0 => 0%float
  | Zpos _ => PrimFloat.of_uint63 (Uint63.of_Z z)
  | Zneg _ => PrimFloat.opp (PrimFloat.of_uint63 (Uint63.of_Z (- z)))
  end.

Definition float_trunc (x : float) : option Z :=
  match FloatOps.Prim2SF x with
  | SpecFloat.S754_zero _ => Some 0
  | SpecFloat.S754_finite sg m e =>
      let v := Z.shiftl (Z.pos m) e in
      Some (if sg then - v else v)
  | _ => None
  end.

#[export] Instance Real64_float : Real64 float := {|
  dadd := PrimFloat.add; dsub := PrimFloat.sub; dmul := PrimFloat.mul;
  ddiv := PrimFloat.div; dneg := PrimFloat.opp;
  dint := float_of_Z;
  ddec := fun n d => PrimFloat.div (float_of_Z n) (float_of_Z (Z.pos d));
  dtrunc := float_trunc
|}.

(** ** Constants of the benchmark *)

Definition SAMPLE_RATE {D : Type} {num : Real64 D} : D := dint 48000.
Definition BUFFER_LEN_TESTS : Z := 13.
Definition SAMPLE_COUNT : Z := 524288.
Definition FILTER_COUNT : Z := 100.

(** ** Loops *)

(** [for (unsigned int i = i0; i < bound; i++) body], the bound being read
    again before each iteration.  [None] when the fuel runs out before the
    test fails or when the body has no defined result. *)
Fixpoint for_uint {St : Type} (fuel : nat) (i : Z) (bound : St -> Z)
    (body : Z -> St -> option St) (s : St) : option St :=
  match fuel with
  | O => None
  | S fuel' =>
      if i <? bound s
      then s' ← body i s; for_uint fuel' (uint_succ i) bound body s'
      else Some s
  end.

(** The body applied at [i], [i+1], ..., [n] times in all. *)
Fixpoint fold_range {St : Type} (body : Z -> St -> option St) (i : Z) (n : nat)
    (s : St) : option St :=
  match n with
  | O => Some s
  | S n' => s' ← body i s; fold_range body (i + 1) n' s'
  end.

(** ** The square-wave generator *)

Record SquareWave : Type := mkSquareWave {
  switch_samples : Z;
  status : bool;
  progress : Z
}.

(** [explicit SquareWave(double frequency)], over the value of the macro
    [SAMPLE_RATE]. *)
Definition SquareWave_new {D : Type} {num : Real64 D} {libm : Libm D} (sample_rate frequency : D)
    : option SquareWave :=
  r ← dtrunc (dround (sample_rate / frequency / dint 2)%D);
  s ← to_size_t r;
  Some {| switch_samples := s; status := false; progress := 0 |}.

(** [SquareWave::reset]. *)
Definition SquareWave_reset (sqw : SquareWave) : SquareWave :=
  {| switch_samples := switch_samples sqw; status := false; progress := 0 |}.

Section Generator.
Context {D : Type} {num : Real64 D}.

(** One iteration of the loop of [fill_buffer]. *)
Definition fill_body (i : Z) (st : list D * SquareWave)
    : option (list D * SquareWave) :=
  let '(buf, sqw) := st in
  let sqw :=
    if progress sqw =? switch_samples sqw
    then {| switch_samples := switch_samples sqw;
            status := negb (status sqw);
            progress := 0 |}
    else sqw in
  let buf := <[Z.to_nat i := if status sqw then ddec 5 10 else (- ddec 5 10)%D]> buf in
  Some (buf, {| switch_samples := switch_samples sqw;
                status := status sqw;
                progress := size_succ (progress sqw) |}).

Definition buf_size (A : Type) (st : list D * A) : Z := Z.of_nat (length st.1).

Definition fill_buffer (buf : list D) (sqw : SquareWave)
    : option (list D * SquareWave) :=
  for_uint (S (length buf)) 0 (buf_size SquareWave) fill_body (buf, sqw).

End Generator.

(** ** The biquad *)

Record Biquad (D : Type) : Type := mkBiquad {
  b0 : D; b1 : D; b2 : D; a1 : D; a2 : D;
  x1 : D; x2 : D; y1 : D; y2 : D
}.
Arguments mkBiquad {D}.
Arguments b0 {D}. Arguments b1 {D}. Arguments b2 {D}.
Arguments a1 {D}. Arguments a2 {D}.
Arguments x1 {D}. Arguments x2 {D}. Arguments y1 {D}. Arguments y2 {D}.

Section BiquadOps.
Context {D : Type} {num : Real64 D}.

Definition set_x1 (v : D) (bq : Biquad D) : Biquad D :=
  mkBiquad (b0 bq) (b1 bq) (b2 bq) (a1 bq) (a2 bq) v (x2 bq) (y1 bq) (y2 bq).
Definition set_x2 (v : D) (bq : Biquad D) : Biquad D :=
  mkBiquad (b0 bq) (b1 bq) (b2 bq) (a1 bq) (a2 bq) (x1 bq) v (y1 bq) (y2 bq).
Definition set_y1 (v : D) (bq : Biquad D) : Biquad D :=
  mkBiquad (b0 bq) (b1 bq) (b2 bq) (a1 bq) (a2 bq) (x1 bq) (x2 bq) v (y2 bq).
Definition set_y2 (v : D) (bq : Biquad D) : Biquad D :=
  mkBiquad (b0 bq) (b1 bq) (b2 bq) (a1 bq) (a2 bq) (x1 bq) (x2 bq) (y1 bq) v.

(** [Biquad::peak_eq].  [bq] is default-constructed, so its four state
    members hold their initialiser [0.0].  The source forms [omega] in
    [long double], [M_PIl] being one, and rounds it to [double] on
    assignment; the two precisions are not told apart here. *)
Definition peak_eq {libm : Libm D} (fs f0 q db_gain : D) : Biquad D :=
  let A := dpow (dint 10) (db_gain / dint 40)%D in
  let omega := (dint 2 * M_PIl * f0 / fs)%D in
  let alpha := (dsin omega / (dint 2 * q))%D in
  let a0 := (dint 1 + alpha / A)%D in
  let bq_b0 := ((dint 1 + alpha * A) / a0)%D in
  let bq_b1 := ((dint (-2) * dcos omega) / a0)%D in
  let bq_b2 := ((dint 1 - alpha * A) / a0)%D in
  let bq_a1 := bq_b1 in
  let bq_a2 := ((dint 1 - alpha / A) / a0)%D in
  mkBiquad bq_b0 bq_b1 bq_b2 bq_a1 bq_a2 (dint 0) (dint 0) (dint 0) (dint 0).

(** [Biquad::reset]. *)
Definition Biquad_reset (bq : Biquad D) : Biquad D :=
  set_y2 (dint 0) (set_y1 (dint 0) (set_x2 (dint 0) (set_x1 (dint 0) bq))).

(** [reset_biquads]: the range-for visits every element once. *)
Definition reset_biquads (biquads : list (Biquad D)) : list (Biquad D) :=
  map Biquad_reset biquads.

(** One iteration of the loop of [iir]. *)
Definition iir_body (i : Z) (st : list D * Biquad D)
    : option (list D * Biquad D) :=
  let '(buf, bq) := st in
  x ← buf !! Z.to_nat i;
  let buf :=
    <[Z.to_nat i := (b0 bq * x + b1 bq * x1 bq + b2 bq * x2 bq
                     - a1 bq * y1 bq - a2 bq * y2 bq)%D]> buf in
  let bq := set_x2 (x1 bq) bq in
  let bq := set_x1 x bq in
  let bq := set_y2 (y1 bq) bq in
  y ← buf !! Z.to_nat i;
  let bq := set_y1 y bq in
  Some (buf, bq).

Definition iir (buf : list D) (bq : Biquad D) : option (list D * Biquad D) :=
  for_uint (S (length buf)) 0 (buf_size (Biquad D)) iir_body (buf, bq).

End BiquadOps.

(** ** The harness *)

(** What one pass of the inner loop of [main] works on; [written] lists the
    buffers in the order [write_buffer] is handed them. *)
Record TrialState (D : Type) : Type := mkTrialState {
  t_buf : list D;
  t_sqw : SquareWave;
  t_biquads : list (Biquad D);
  written : list (list D)
}.
Arguments mkTrialState {D}.
Arguments t_buf {D}. Arguments t_sqw {D}.
Arguments t_biquads {D}. Arguments written {D}.

(** What one trial of the sweep leaves behind. *)
Record TrialReport (D : Type) : Type := mkTrialReport {
  buffer_len : Z;
  buffer_count : Z;
  r_written : list (list D)
}.
Arguments mkTrialReport {D}.
Arguments buffer_len {D}. Arguments buffer_count {D}. Arguments r_written {D}.

Section Harness.
Context {D : Type} {num : Real64 D}.

(** [iir] on [buf] and [&biquads[f]]: filter [f] is updated where it stands. *)
Definition filters_body (f : Z) (st : list D * list (Biquad D))
    : option (list D * list (Biquad D)) :=
  let '(buf, biquads) := st in
  bq ← biquads !! Z.to_nat f;
  '(buf, bq) ← iir buf bq;
  Some (buf, <[Z.to_nat f := bq]> biquads).

(** The loop of [main] over [f], from [0] up to [filter_count]. *)
Definition apply_filters (filter_count : Z) (buf : list D)
    (biquads : list (Biquad D)) : option (list D * list (Biquad D)) :=
  for_uint (S (Z.to_nat filter_count)) 0 (fun _ => filter_count)
    filters_body (buf, biquads).

(** The body of [for (unsigned int i = 0; i < buffer_count; i++)]. *)
Definition buffer_body (filter_count : Z) (i : Z) (st : TrialState D)
    : option (TrialState D) :=
  '(buf, sqw) ← fill_buffer (t_buf st) (t_sqw st);
  '(buf, biquads) ← apply_filters filter_count buf (t_biquads st);
  Some (mkTrialState buf sqw biquads (written st ++ [buf])).

Definition run_buffers (filter_count buffer_count : Z) (st : TrialState D)
    : option (TrialState D) :=
  for_uint (S (Z.to_nat buffer_count)) 0 (fun _ => buffer_count)
    (buffer_body filter_count) st.

Context {libm : Libm D}.

(** The body of [for (unsigned int l = 3; l < BUFFER_LEN_TESTS; l++)],
    timing and console output left out. *)
Definition trial (l : Z)
    (st : SquareWave * list (Biquad D) * list (TrialReport D))
    : option (SquareWave * list (Biquad D) * list (TrialReport D)) :=
  let '(sqw, biquads, reports) := st in
  p ← dtrunc (dpow (dint 2) (dint l));
  buffer_len ← to_size_t p;
  let filter_count := to_uint FILTER_COUNT in
  buffer_count ←
    (if buffer_len =? 0 then None
     else Some (to_uint (SAMPLE_COUNT / buffer_len)));
  let buf := replicate (Z.to_nat buffer_len) (dint 0) in
  let sqw := SquareWave_reset sqw in
  let biquads := reset_biquads biquads in
  st' ← run_buffers filter_count buffer_count
          (mkTrialState buf sqw biquads []);
  Some (t_sqw st', t_biquads st',
        reports ++ [mkTrialReport buffer_len buffer_count (written st')]).

(** The body of the loop of [main] that fills [biquads]. *)
Definition push_body (i : Z) (st : list (Biquad D) * bool)
    : option (list (Biquad D) * bool) :=
  let '(biquads, biquad_gain_positive) := st in
  let db_gain := if biquad_gain_positive then dint 2 else (- dint 2)%D in
  let biquad_gain_positive := negb biquad_gain_positive in
  Some (biquads ++ [peak_eq SAMPLE_RATE (dint 50) (ddec 3 10) db_gain],
        biquad_gain_positive).

Definition sweep (sqw : SquareWave) (biquads : list (Biquad D))
    : option (SquareWave * list (Biquad D) * list (TrialReport D)) :=
  for_uint (S (Z.to_nat BUFFER_LEN_TESTS)) 3 (fun _ => BUFFER_LEN_TESTS)
    trial (sqw, biquads, []).

(** [main]: the reports of the trials, in order. *)
Definition main : option (list (TrialReport D)) :=
  sqw ← SquareWave_new SAMPLE_RATE (dint 50);
  '(biquads, _) ←
    for_uint (S (Z.to_nat FILTER_COUNT)) 0 (fun _ => to_uint FILTER_COUNT)
      push_body ([], true);
  '(_, _, reports) ← sweep sqw biquads;
  Some reports.

End Harness.

(** ** What the specification says, for comparison *)

Section Specification.
Context {D : Type} {num : Real64 D}.

(** The generator step of the specification: flip and restart when the half
    period has elapsed, emit the level, count the sample. *)
Definition next_sample (sqw : SquareWave) : D * SquareWave :=
  let flip := progress sqw =? switch_samples sqw in
  let level := if flip then negb (status sqw) else status sqw in
  let elapsed := if flip then 0 else progress sqw in
  (if level then ddec 5 10 else (- ddec 5 10)%D,
   mkSquareWave (switch_samples sqw) level (size_succ elapsed)).

(** [n] successive samples. *)
Fixpoint generate (n : nat) (sqw : SquareWave) : list D * SquareWave :=
  match n with
  | O => ([], sqw)
  | S n' =>
      let '(v, sqw1) := next_sample sqw in
      let '(vs, sqw2) := generate n' sqw1 in
      (v :: vs, sqw2)
  end.

(** Sample number [k] of a square wave that starts low and changes level
    every [half_period] samples. *)
Definition square_sample (half_period : Z) (k : Z) : D :=
  if Z.odd (k / half_period) then ddec 5 10 else (- ddec 5 10)%D.

(** The recurrence of the specification ([process_sample]). *)
Definition process_sample (bq : Biquad D) (x : D) : D * Biquad D :=
  let y := (b0 bq * x + b1 bq * x1 bq + b2 bq * x2 bq
            - a1 bq * y1 bq - a2 bq * y2 bq)%D in
  (y, mkBiquad (b0 bq) (b1 bq) (b2 bq) (a1 bq) (a2 bq) x (x1 bq) y (y1 bq)).

(** One filter over a sequence of samples, left to right. *)
Fixpoint filter_seq (bq : Biquad D) (xs : list D) : list D * Biquad D :=
  match xs with
  | [] => ([], bq)
  | x :: xs' =>
      let '(y, bq1) := process_sample bq x in
      let '(ys, bq2) := filter_seq bq1 xs' in
      (y :: ys, bq2)
  end.

(** Filter by filter: each filter makes a full pass over the buffer. *)
Fixpoint cascade_passes (biquads : list (Biquad D)) (buf : list D)
    : list D * list (Biquad D) :=
  match biquads with
  | [] => (buf, [])
  | bq :: rest =>
      let '(buf1, bq') := filter_seq bq buf in
      let '(buf2, rest') := cascade_passes rest buf1 in
      (buf2, bq' :: rest')
  end.

(** One sample through the whole cascade, stage by stage. *)
Fixpoint cascade_sample (biquads : list (Biquad D)) (x : D)
    : D * list (Biquad D) :=
  match biquads with
  | [] => (x, [])
  | bq :: rest =>
      let '(y, bq') := process_sample bq x in
      let '(z, rest') := cascade_sample rest y in
      (z, bq' :: rest')
  end.

(** Sample by sample: each sample goes through the full cascade before the
    next one is touched. *)
Fixpoint cascade_per_sample (biquads : list (Biquad D)) (buf : list D)
    : list D * list (Biquad D) :=
  match buf with
  | [] => ([], biquads)
  | x :: buf' =>
      let '(z, biquads1) := cascade_sample biquads x in
      let '(zs, biquads2) := cascade_per_sample biquads1 buf' in
      (z :: zs, biquads2)
  end.

(** One pass of the inner loop of [main] on a buffer of [n] samples. *)
Definition pipeline (n : nat) (sqw : SquareWave) (biquads : list (Biquad D))
    : list D * SquareWave * list (Biquad D) :=
  let '(buf, sqw') := generate n sqw in
  let '(out, biquads') := cascade_passes biquads buf in
  (out, sqw', biquads').

(** [count] such passes, the outputs in order. *)
Fixpoint pipeline_n (count n : nat) (sqw : SquareWave)
    (biquads : list (Biquad D)) (outs : list (list D))
    : list (list D) * SquareWave * list (Biquad D) :=
  match count with
  | O => (outs, sqw, biquads)
  | S count' =>
      let '(out, sqw', biquads') := pipeline n sqw biquads in
      pipeline_n count' n sqw' biquads' (outs ++ [out])
  end.

(** The Audio EQ Cookbook peaking filter, before normalisation:
    [(b0, b1, b2, a0, a1, a2)]. *)
Definition cookbook_peaking {libm : Libm D} (fs f0 q db_gain : D)
    : D * D * D * D * D * D :=
  let A := dpow (dint 10) (db_gain / dint 40)%D in
  let omega := (dint 2 * M_PIl * f0 / fs)%D in
  let alpha := (dsin omega / (dint 2 * q))%D in
  ((dint 1 + alpha * A)%D, (dint (-2) * dcos omega)%D, (dint 1 - alpha * A)%D,
   (dint 1 + alpha / A)%D, (dint (-2) * dcos omega)%D, (dint 1 - alpha / A)%D).

(** Division of the five retained coefficients by [a0]. *)
Definition normalized (c : D * D * D * D * D * D) : D * D * D * D * D :=
  let '(cb0, cb1, cb2, ca0, ca1, ca2) := c in
  ((cb0 / ca0)%D, (cb1 / ca0)%D, (cb2 / ca0)%D, (ca1 / ca0)%D, (ca2 / ca0)%D).

Definition coefficients (bq : Biquad D) : D * D * D * D * D :=
  (b0 bq, b1 bq, b2 bq, a1 bq, a2 bq).

Definition state (bq : Biquad D) : D * D * D * D :=
  (x1 bq, x2 bq, y1 bq, y2 bq).

End Specification.

(** The generator invariant of the specification. *)
Definition progress_bounded (sqw : SquareWave) : Prop :=
  0 <= progress sqw <= switch_samples sqw.

(** Successive [fill_buffer] calls on the buffers of [bufs], in order. *)
Fixpoint fill_buffers {D : Type} {num : Real64 D} (bufs : list (list D))
    (sqw : SquareWave) : option (list (list D) * SquareWave) :=
  match bufs with
  | [] => Some ([], sqw)
  | buf :: bufs' =>
      '(out, sqw1) ← fill_buffer buf sqw;
      '(outs, sqw2) ← fill_buffers bufs' sqw1;
      Some (out :: outs, sqw2)
  end.

(** ** Predicates used in the statements *)

(** [sqw] is the state of a generator of half period [hp] that has emitted
    [t] samples since its reset: [k] half periods are complete. *)
Definition phase (hp t : Z) (sqw : SquareWave) : Prop :=
  exists k, 0 <= k /\ t = k * hp + progress sqw
            /\ 0 <= progress sqw <= hp
            /\ status sqw = Z.odd k /\ switch_samples sqw = hp.

(** A filter in this state returns its input: unit [b0], feedback
    coefficients equal to the feed-forward ones, and a past output equal to
    the past input. *)
Definition passes_through (bq : Biquad R) : Prop :=
  b0 bq = 1%R /\ b1 bq = a1 bq /\ b2 bq = a2 bq
  /\ x1 bq = y1 bq /\ x2 bq = y2 bq.

(** What a report says of its trial: the number of passes asked for is the
    quotient of the sample budget by the buffer length, and as many buffers
    were processed. *)
Definition report_consistent {D : Type} (r : TrialReport D) : Prop :=
  buffer_count r = SAMPLE_COUNT / buffer_len r
  /\ Z.of_nat (length (r_written r)) = SAMPLE_COUNT / buffer_len r.

(** The outputs in order and the final states of two runs agree. *)
Definition same_run {D : Type} (one many : TrialState D) : Prop :=
  concat (written many) = concat (written one)
  /\ t_sqw many = t_sqw one
  /\ t_biquads many = t_biquads one.

(** ** The rest of [main.cc] *)

Section Reporting.
Context {D : Type} {num : Real64 D}.

(** The two numbers [print_elapsed] prints, the per-sample, per-filter
    duration in nanoseconds and the real-time factor, as a function of the
    nanosecond count [elapsed.count()] that the clock gives; reading the
    clock and writing to [cout] are left out. *)
Definition print_elapsed (elapsed filter_count : Z) : D * D :=
  let duration := (dint elapsed / dint filter_count / dint SAMPLE_COUNT)%D in
  let realtime := (dint 1 / duration / SAMPLE_RATE * dint 1000000000)%D in
  (duration, realtime).

(** The loop of [main] that fills [biquads], from the empty vector. *)
Definition build_biquads {libm : Libm D} : option (list (Biquad D) * bool) :=
  for_uint (S (Z.to_nat FILTER_COUNT)) 0 (fun _ => to_uint FILTER_COUNT)
    push_body ([], true).

(** A boost of 2 dB followed by a cut of 2 dB, and [m] such pairs. *)
Definition eq_pair {libm : Libm D} : list (Biquad D) :=
  [peak_eq SAMPLE_RATE (dint 50) (ddec 3 10) (dint 2);
   peak_eq SAMPLE_RATE (dint 50) (ddec 3 10) (- dint 2)%D].

Definition eq_bank {libm : Libm D} (m : nat) : list (Biquad D) :=
  concat (replicate m eq_pair).

End Reporting.

(** The second filter undoes the first: its coefficients are those of the
    inverse transfer function. *)
Definition inverse_coeffs (p q : Biquad R) : Prop :=
  b0 p <> 0%R
  /\ b0 q = (/ b0 p)%R
  /\ b1 q = (a1 p / b0 p)%R /\ b2 q = (a2 p / b0 p)%R
  /\ a1 q = (b1 p / b0 p)%R /\ a2 q = (b2 p / b0 p)%R.

(** The second filter has seen the outputs of the first and returned its
    inputs. *)
Definition in_step (p q : Biquad R) : Prop :=
  x1 q = y1 p /\ x2 q = y2 p /\ y1 q = x1 p /\ y2 q = x2 p.

(** A cascade made of such pairs, in order. *)
Fixpoint all_paired (biquads : list (Biquad R)) : Prop :=
  match biquads with
  | [] => True
  | [_] => False
  | p :: q :: rest => inverse_coeffs p q /\ in_step p q /\ all_paired rest
  end.

(** The weighted sum of two filter states over the same coefficients. *)
Definition blend (c d : R) (p q : Biquad R) : Biquad R :=
  mkBiquad (b0 p) (b1 p) (b2 p) (a1 p) (a2 p)
    (c * x1 p + d * x1 q)%R (c * x2 p + d * x2 q)%R
    (c * y1 p + d * y1 q)%R (c * y2 p + d * y2 q)%R.

(** The stream [main] is shown to hand on in every trial: the first [SAMPLE_COUNT] samples of the
    generator of [main] after its reset. *)
Definition main_stream : list R :=
  (generate (Z.to_nat SAMPLE_COUNT) (mkSquareWave 480 false 0)).1.

(** *** The libm of a binary64 platform *)

(** The number of binary digits of a mantissa, as the specification of
    binary64 counts them: its magnitude is [digits m + e] for the value
    [m * 2^e]. *)
Definition digits (m : positive) : Z := Z.pos (digits2_pos m).

(** [round] on binary64: the value [m * 2^e] with [e < 0] goes to the
    integer [floor(m / 2^-e + 1/2)], away from zero on a tie, with the sign
    kept; a value with [e >= 0], a zero, an infinity or a NaN is returned
    as it is. *)
Definition float_round (x : float) : float :=
  match FloatOps.Prim2SF x with
  | SpecFloat.S754_finite sg m e =>
      if e <? 0
      then
        let n := (Z.pos m + 2 ^ (- e - 1)) / 2 ^ (- e) in
        if sg then PrimFloat.opp (float_of_Z n) else float_of_Z n
      else x
  | _ => x
  end.

(** The [<cmath>] calls on binary64, the platform's [sin], [cos], [pow] and
    pi being given. *)
Definition Libm_binary64 (fsin fcos : float -> float)
    (fpow : float -> float -> float) (pi : float) : Libm float :=
  {| dsin := fsin; dcos := fcos; dpow := fpow; dround := float_round;
     M_PIl := pi |}.

(** A frequency at which the binary64 quotient [48000 / f / 2] is [5.5]
    while the exact one lies below: the double [0x1.10ba2e8ba2e8cp+12] and
    the real number it stands for. *)
Definition f_tie : float := 0x1.10ba2e8ba2e8cp+12%float.
Definition f_tie_real : R := (4797868921204364 / 1099511627776)%R.

(** ** Binary64 data for the examples *)

Definition demo_bq : Biquad float :=
  (mkBiquad 0.5 0.25 0.125 (-0.5) 0.25 0 0 0 0)%float.
Definition demo_bq2 : Biquad float :=
  (mkBiquad 2 (-1) 0.5 0.25 (-0.125) 0 0 0 0)%float.
Definition demo_buf : list float := [1; 2; 3]%float.
Definition demo_sqw : SquareWave := mkSquareWave 3 false 0.

(** Unit [b0] and feedback equal to feed-forward, as [peak_eq] gives them
    at 0 dB. *)
Definition demo_unity : Biquad float :=
  (mkBiquad 1 0.5 0.25 0.5 0.25 0 0 0 0)%float.

(** * Properties *)

(** ** Machine integers *)

Lemma uint_succ_small i : 0 <= i -> i + 1 < UINT_MOD -> uint_succ i = i + 1.
Proof. intros. unfold uint_succ. apply Z.mod_small. lia. Qed.

Lemma size_succ_bounds p : 0 <= p -> 0 <= size_succ p <= p + 1.
Proof.
  intros Hp. unfold size_succ. split.
  - apply Z.mod_pos_bound. reflexivity.
  - apply Z.mod_le; [lia | reflexivity].
Qed.

Lemma size_succ_small p : 0 <= p -> p + 1 < SIZE_MOD -> size_succ p = p + 1.
Proof. intros. unfold size_succ. apply Z.mod_small. lia. Qed.

Lemma to_size_t_Some z s : to_size_t z = Some s <-> s = z /\ 0 <= z < SIZE_MOD.
Proof.
  unfold to_size_t.
  destruct (Z.leb_spec 0 z); destruct (Z.ltb_spec z SIZE_MOD); simpl;
    split; try (intros [= <-]); try (intros [-> ?]); try done; lia.
Qed.

Lemma to_uint_small z : 0 <= z < UINT_MOD -> to_uint z = z.
Proof. intros. unfold to_uint. apply Z.mod_small. lia. Qed.

(** ** Loops *)

Section LoopFacts.
Context {St : Type} (bound : St -> Z) (body : Z -> St -> option St).

(** More fuel never changes a result. *)
Lemma for_uint_more_fuel fuel fuel' i s r :
  for_uint fuel i bound body s = Some r -> (fuel <= fuel')%nat ->
  for_uint fuel' i bound body s = Some r.
Proof.
  revert fuel' i s. induction fuel as [|fuel IH]; intros fuel' i s; [done|].
  destruct fuel' as [|fuel']; [lia|]. simpl.
  destruct (i <? bound s); [|done].
  destruct (body i s) as [s'|]; simpl; [|done].
  intros Hr Hle. apply (IH fuel'); [done | lia].
Qed.

(** What every iteration preserves holds of the result. *)
Lemma for_uint_invariant (P : St -> Prop) :
  (forall i s s', P s -> body i s = Some s' -> P s') ->
  forall fuel i s r, P s -> for_uint fuel i bound body s = Some r -> P r.
Proof.
  intros Hstep. induction fuel as [|fuel IH]; intros i s r Hs; [done|].
  simpl. destruct (i <? bound s); [|by intros [= <-]].
  destruct (body i s) as [s'|] eqn:E; simpl; [|done].
  apply IH. by eapply Hstep.
Qed.

Hypothesis bound_kept : forall i s s', body i s = Some s' -> bound s' = bound s.

(** With a bound that fits the counter the loop is the body applied at
    [i], [i+1], ..., [bound - 1]. *)
Lemma for_uint_fold fuel i s :
  0 <= i -> bound s < UINT_MOD -> (Z.to_nat (bound s - i) < fuel)%nat ->
  for_uint fuel i bound body s = fold_range body i (Z.to_nat (bound s - i)) s.
Proof.
  revert i s. induction fuel as [|fuel IH]; intros i s Hi Hn Hf; [lia|].
  simpl. destruct (Z.ltb_spec i (bound s)) as [Hlt|Hge].
  - replace (Z.to_nat (bound s - i)) with (S (Z.to_nat (bound s - (i + 1))))
      by lia.
    simpl. destruct (body i s) as [s'|] eqn:E; simpl; [|done].
    rewrite uint_succ_small by lia.
    pose proof (bound_kept _ _ _ E) as Hb. rewrite <- Hb.
    apply IH; lia.
  - by replace (Z.to_nat (bound s - i)) with 0%nat by lia.
Qed.

(** With a bound the counter cannot reach, the test never fails. *)
Lemma for_uint_no_exit fuel i s :
  0 <= i < UINT_MOD -> UINT_MOD <= bound s ->
  for_uint fuel i bound body s = None.
Proof.
  revert i s. induction fuel as [|fuel IH]; intros i s Hi Hn; [done|].
  simpl. destruct (Z.ltb_spec i (bound s)) as [_|Hge]; [|lia].
  destruct (body i s) as [s'|] eqn:E; simpl; [|done].
  apply IH.
  - unfold uint_succ. apply Z.mod_pos_bound. reflexivity.
  - by rewrite (bound_kept _ _ _ E).
Qed.

End LoopFacts.

(** ** The loops of [fill_buffer] and [iir] against the specification *)

Section ListSlots.
Context {A : Type}.

Lemma insert_at_end (pre rest : list A) (x v : A) :
  <[Z.to_nat (Z.of_nat (length pre)) := v]> (pre ++ x :: rest)
  = (pre ++ [v]) ++ rest.
Proof.
  rewrite Nat2Z.id, <- (Nat.add_0_r (length pre)), insert_app_r.
  by rewrite <- app_assoc.
Qed.

Lemma lookup_at_end (pre rest : list A) (x : A) :
  (pre ++ x :: rest) !! Z.to_nat (Z.of_nat (length pre)) = Some x.
Proof. rewrite Nat2Z.id. by apply list_lookup_middle. Qed.

Lemma length_snoc_Z (pre : list A) (v : A) :
  Z.of_nat (length (pre ++ [v])) = Z.of_nat (length pre) + 1.
Proof. rewrite length_app. simpl. lia. Qed.

End ListSlots.

Section BufferLoops.
Context {D : Type} {num : Real64 D}.

Lemma fill_body_next_sample i buf sqw :
  fill_body i (buf, sqw)
  = Some (<[Z.to_nat i := (next_sample sqw).1]> buf, (next_sample sqw).2).
Proof.
  unfold fill_body, next_sample. simpl.
  by destruct (progress sqw =? switch_samples sqw).
Qed.

Lemma fill_body_size i st st' :
  fill_body i st = Some st' -> buf_size SquareWave st' = buf_size SquareWave st.
Proof.
  destruct st as [buf sqw]. rewrite fill_body_next_sample. intros [= <-].
  unfold buf_size. simpl. by rewrite length_insert.
Qed.

Lemma fill_fold (rest pre : list D) (sqw : SquareWave) :
  fold_range fill_body (Z.of_nat (length pre)) (length rest) (pre ++ rest, sqw)
  = Some (pre ++ (generate (length rest) sqw).1,
          (generate (length rest) sqw).2).
Proof.
  revert pre sqw. induction rest as [|x rest IH]; intros pre sqw; [done|].
  cbn [length fold_range generate]. rewrite fill_body_next_sample.
  destruct (next_sample sqw) as [v sqw1] eqn:E. cbn [mbind option_bind fst snd].
  rewrite insert_at_end, <- (length_snoc_Z pre v), IH.
  destruct (generate (length rest) sqw1) as [vs sqw2]. simpl.
  by rewrite <- app_assoc.
Qed.

(** [fill_buffer] overwrites every slot with the next sample, in order. *)
Lemma fill_buffer_generate (buf : list D) (sqw : SquareWave) :
  fits_uint (length buf) ->
  fill_buffer buf sqw = Some (generate (length buf) sqw).
Proof.
  intros Hfit. unfold fill_buffer.
  rewrite (for_uint_fold _ _ fill_body_size); unfold buf_size; simpl;
    [|lia|done|lia].
  rewrite Z.sub_0_r, Nat2Z.id.
  rewrite (fill_fold buf [] sqw
    : fold_range fill_body 0 (length buf) (buf, sqw) = _). simpl.
  by destruct (generate (length buf) sqw).
Qed.

Lemma iir_body_process_sample i (pre rest : list D) x bq :
  i = Z.of_nat (length pre) ->
  iir_body i (pre ++ x :: rest, bq)
  = Some ((pre ++ [(process_sample bq x).1]) ++ rest, (process_sample bq x).2).
Proof.
  intros ->. unfold iir_body. rewrite lookup_at_end. cbn [mbind option_bind].
  rewrite insert_at_end, <- app_assoc. cbn [app].
  rewrite lookup_at_end. cbn [mbind option_bind].
  unfold process_sample, set_y1, set_y2, set_x1, set_x2. simpl.
  by rewrite <- app_assoc.
Qed.

Lemma iir_body_size i st st' :
  iir_body i st = Some st' ->
  buf_size (Biquad D) st' = buf_size (Biquad D) st.
Proof.
  destruct st as [buf bq]. unfold iir_body, buf_size.
  destruct (buf !! Z.to_nat i) as [x|]; [|done]. cbn [mbind option_bind].
  destruct (_ !! Z.to_nat i) as [y|]; [|done]. intros [= <-].
  simpl. by rewrite length_insert.
Qed.

Lemma iir_fold (rest pre : list D) (bq : Biquad D) :
  fold_range iir_body (Z.of_nat (length pre)) (length rest) (pre ++ rest, bq)
  = Some (pre ++ (filter_seq bq rest).1, (filter_seq bq rest).2).
Proof.
  revert pre bq. induction rest as [|x rest IH]; intros pre bq; [done|].
  cbn [length fold_range filter_seq].
  rewrite (iir_body_process_sample _ pre rest x bq eq_refl).
  destruct (process_sample bq x) as [y bq1] eqn:E. cbn [mbind option_bind fst snd].
  rewrite <- (length_snoc_Z pre y), IH.
  destruct (filter_seq bq1 rest) as [ys bq2]. simpl.
  by rewrite <- app_assoc.
Qed.

Lemma iir_filter_seq (buf : list D) (bq : Biquad D) :
  fits_uint (length buf) -> iir buf bq = Some (filter_seq bq buf).
Proof.
  intros Hfit. unfold iir.
  rewrite (for_uint_fold _ _ iir_body_size); unfold buf_size; simpl;
    [|lia|done|lia].
  rewrite Z.sub_0_r, Nat2Z.id.
  rewrite (iir_fold buf [] bq
    : fold_range iir_body 0 (length buf) (buf, bq) = _). simpl.
  by destruct (filter_seq bq buf).
Qed.

(** Either call returns only on a buffer whose size the counter reaches. *)
Lemma fill_buffer_returns (buf : list D) sqw r :
  fill_buffer buf sqw = Some r ->
  fits_uint (length buf) /\ r = generate (length buf) sqw.
Proof.
  intros Hrun. destruct (Z.lt_ge_cases (Z.of_nat (length buf)) UINT_MOD)
    as [Hfit|Hbig].
  - rewrite fill_buffer_generate in Hrun by done. by injection Hrun as <-.
  - unfold fill_buffer in Hrun.
    by rewrite (for_uint_no_exit _ _ fill_body_size) in Hrun.
Qed.

Lemma iir_returns (buf : list D) (bq : Biquad D) r :
  iir buf bq = Some r -> fits_uint (length buf) /\ r = filter_seq bq buf.
Proof.
  intros Hrun. destruct (Z.lt_ge_cases (Z.of_nat (length buf)) UINT_MOD)
    as [Hfit|Hbig].
  - rewrite iir_filter_seq in Hrun by done. by injection Hrun as <-.
  - unfold iir in Hrun.
    by rewrite (for_uint_no_exit _ _ iir_body_size) in Hrun.
Qed.

Lemma generate_length n sqw : length (generate (D:=D) n sqw).1 = n.
Proof.
  revert sqw. induction n as [|n IH]; intros sqw; [done|].
  cbn [generate]. destruct (next_sample sqw) as [v sqw1].
  specialize (IH sqw1). destruct (generate n sqw1). simpl in *. lia.
Qed.

Lemma filter_seq_length (bq : Biquad D) xs : length (filter_seq bq xs).1 = length xs.
Proof.
  revert bq. induction xs as [|x xs IH]; intros bq; [done|].
  cbn [filter_seq length]. destruct (process_sample bq x) as [y bq1].
  specialize (IH bq1). destruct (filter_seq bq1 xs). simpl in *. lia.
Qed.

End BufferLoops.

(** ** The cascade *)

Section Cascade.
Context {D : Type} {num : Real64 D}.

Lemma cascade_passes_length (biquads : list (Biquad D)) (buf : list D) :
  length (cascade_passes biquads buf).1 = length buf
  /\ length (cascade_passes biquads buf).2 = length biquads.
Proof.
  revert buf. induction biquads as [|bq rest IH]; intros buf; [done|].
  cbn [cascade_passes]. pose proof (filter_seq_length bq buf) as Hlen.
  destruct (filter_seq bq buf) as [buf1 bq'].
  specialize (IH buf1). destruct (cascade_passes rest buf1) as [buf2 rest'].
  simpl in *. lia.
Qed.

Lemma filters_body_pass f buf (pre rest : list (Biquad D)) bq :
  f = Z.of_nat (length pre) -> fits_uint (length buf) ->
  filters_body f (buf, pre ++ bq :: rest)
  = Some ((filter_seq bq buf).1, (pre ++ [(filter_seq bq buf).2]) ++ rest).
Proof.
  intros -> Hfit. unfold filters_body. rewrite lookup_at_end.
  cbn [mbind option_bind]. rewrite (iir_filter_seq buf bq Hfit).
  destruct (filter_seq bq buf) as [buf1 bq']. cbn [mbind option_bind fst snd].
  by rewrite insert_at_end.
Qed.

Lemma filters_fold (rest pre : list (Biquad D)) (buf : list D) :
  fits_uint (length buf) ->
  fold_range filters_body (Z.of_nat (length pre)) (length rest) (buf, pre ++ rest)
  = Some ((cascade_passes rest buf).1, pre ++ (cascade_passes rest buf).2).
Proof.
  revert pre buf. induction rest as [|bq rest IH]; intros pre buf Hfit.
  - simpl. by rewrite app_nil_r.
  - cbn [length fold_range cascade_passes].
    rewrite (filters_body_pass _ buf pre rest bq eq_refl Hfit).
    pose proof (filter_seq_length bq buf) as Hlen.
    destruct (filter_seq bq buf) as [buf1 bq']. cbn [mbind option_bind fst snd] in *.
    rewrite <- (length_snoc_Z pre bq'), IH by (unfold fits_uint in *; lia).
    destruct (cascade_passes rest buf1) as [buf2 rest']. simpl.
    by rewrite <- app_assoc.
Qed.

(** The loop of [main] over the filters is one full pass per filter. *)
Lemma apply_filters_passes (biquads : list (Biquad D)) (buf : list D) :
  fits_uint (length biquads) -> fits_uint (length buf) ->
  apply_filters (Z.of_nat (length biquads)) buf biquads
  = Some (cascade_passes biquads buf).
Proof.
  intros Hn Hfit. unfold apply_filters.
  rewrite for_uint_fold; [|done|lia|done|lia].
  rewrite Z.sub_0_r, Nat2Z.id.
  rewrite (filters_fold biquads [] buf Hfit
    : fold_range filters_body 0 (length biquads) (buf, biquads) = _). simpl.
  by destruct (cascade_passes biquads buf).
Qed.

(** The loop returns only when both sizes fit, unless there is no filter. *)
Lemma apply_filters_returns (biquads : list (Biquad D)) (buf : list D) r :
  apply_filters (Z.of_nat (length biquads)) buf biquads = Some r ->
  r = cascade_passes biquads buf
  /\ fits_uint (length biquads)
  /\ (biquads = [] \/ fits_uint (length buf)).
Proof.
  intros Hrun.
  destruct (Z.lt_ge_cases (Z.of_nat (length biquads)) UINT_MOD) as [Hn|Hbig].
  2:{ unfold apply_filters in Hrun.
      rewrite for_uint_no_exit in Hrun; [done|done|done|done]. }
  destruct biquads as [|bq rest].
  { cbn in Hrun. injection Hrun as <-. auto. }
  destruct (Z.lt_ge_cases (Z.of_nat (length buf)) UINT_MOD) as [Hfit|Hbuf].
  - rewrite apply_filters_passes in Hrun by done. injection Hrun as <-. auto.
  - exfalso. unfold apply_filters in Hrun. cbn [for_uint] in Hrun.
    destruct (Z.ltb_spec 0 (Z.of_nat (length (bq :: rest)))) as [_|Hlen];
      [|cbn [length] in Hlen; lia].
    assert (filters_body 0 (buf, bq :: rest) = None) as Hnone.
    { unfold filters_body. change ((bq :: rest) !! Z.to_nat 0) with (Some bq).
      cbn [mbind option_bind].
      destruct (iir buf bq) as [res|] eqn:E; [|done].
      apply iir_returns in E as [Hfit _]. unfold fits_uint in Hfit. lia. }
    by rewrite Hnone in Hrun.
Qed.

Lemma cascade_per_sample_nil (buf : list D) :
  cascade_per_sample [] buf = (buf, []).
Proof. induction buf as [|x buf IH]; [done|]. simpl. by rewrite IH. Qed.

Lemma cascade_per_sample_cons (bq : Biquad D) rest (buf : list D) :
  cascade_per_sample (bq :: rest) buf
  = ((cascade_per_sample rest (filter_seq bq buf).1).1,
     (filter_seq bq buf).2 :: (cascade_per_sample rest (filter_seq bq buf).1).2).
Proof.
  revert bq rest. induction buf as [|x buf IH]; intros bq rest; [done|].
  cbn [cascade_per_sample cascade_sample filter_seq].
  destruct (process_sample bq x) as [y bq1].
  destruct (filter_seq bq1 buf) as [ys bq2] eqn:Eys.
  cbn [fst snd cascade_per_sample].
  destruct (cascade_sample rest y) as [z rest1].
  rewrite IH, Eys. cbn [fst snd].
  by destruct (cascade_per_sample rest1 ys).
Qed.

Lemma cascade_per_sample_passes (biquads : list (Biquad D)) (buf : list D) :
  cascade_per_sample biquads buf = cascade_passes biquads buf.
Proof.
  revert buf. induction biquads as [|bq rest IH]; intros buf.
  - apply cascade_per_sample_nil.
  - rewrite cascade_per_sample_cons. cbn [cascade_passes].
    destruct (filter_seq bq buf) as [buf1 bq']. cbn [fst snd]. rewrite IH.
    by destruct (cascade_passes rest buf1).
Qed.

End Cascade.

(** ** State carried across buffer boundaries *)

Section Continuity.
Context {D : Type} {num : Real64 D}.

Lemma generate_app n m sqw :
  generate (D:=D) (n + m) sqw
  = ((generate n sqw).1 ++ (generate m (generate n sqw).2).1,
     (generate m (generate n sqw).2).2).
Proof.
  revert sqw. induction n as [|n IH]; intros sqw.
  - simpl. by destruct (generate m sqw).
  - cbn [Nat.add generate]. destruct (next_sample sqw) as [v sqw1].
    rewrite IH. destruct (generate n sqw1) as [a s1]. cbn [fst snd].
    by destruct (generate m s1).
Qed.

Lemma filter_seq_app (bq : Biquad D) xs ys :
  filter_seq bq (xs ++ ys)
  = ((filter_seq bq xs).1 ++ (filter_seq (filter_seq bq xs).2 ys).1,
     (filter_seq (filter_seq bq xs).2 ys).2).
Proof.
  revert bq. induction xs as [|x xs IH]; intros bq.
  - simpl. by destruct (filter_seq bq ys).
  - cbn [app filter_seq]. destruct (process_sample bq x) as [y bq1].
    rewrite IH. destruct (filter_seq bq1 xs) as [a bq2]. cbn [fst snd].
    by destruct (filter_seq bq2 ys).
Qed.

Lemma cascade_passes_app (biquads : list (Biquad D)) xs ys :
  cascade_passes biquads (xs ++ ys)
  = ((cascade_passes biquads xs).1
       ++ (cascade_passes (cascade_passes biquads xs).2 ys).1,
     (cascade_passes (cascade_passes biquads xs).2 ys).2).
Proof.
  revert xs ys. induction biquads as [|bq rest IH]; intros xs ys; [done|].
  cbn [cascade_passes]. rewrite filter_seq_app.
  destruct (filter_seq bq xs) as [a bq1]. cbn [fst snd]. rewrite IH.
  destruct (cascade_passes rest a) as [a' rest1]. cbn [fst snd cascade_passes].
  destruct (filter_seq bq1 ys) as [b bq2]. cbn [fst snd].
  by destruct (cascade_passes rest1 b).
Qed.

Lemma cascade_passes_nil (biquads : list (Biquad D)) :
  cascade_passes biquads [] = ([], biquads).
Proof. induction biquads as [|bq rest IH]; [done|]. simpl. by rewrite IH. Qed.

Lemma pipeline_0 sqw (biquads : list (Biquad D)) :
  pipeline 0 sqw biquads = ([], sqw, biquads).
Proof. unfold pipeline. simpl. by rewrite cascade_passes_nil. Qed.

Lemma pipeline_app n m sqw (biquads : list (Biquad D)) :
  pipeline (n + m) sqw biquads
  = let '(a, sqw1, biquads1) := pipeline n sqw biquads in
    let '(b, sqw2, biquads2) := pipeline m sqw1 biquads1 in
    (a ++ b, sqw2, biquads2).
Proof.
  unfold pipeline. rewrite generate_app.
  destruct (generate n sqw) as [g1 s1]. cbn [fst snd].
  destruct (generate m s1) as [g2 s2] eqn:Eg. rewrite cascade_passes_app.
  destruct (cascade_passes biquads g1) as [a bs1]. cbn [fst snd].
  rewrite Eg. by destruct (cascade_passes bs1 g2).
Qed.

Lemma pipeline_length n sqw (biquads : list (Biquad D)) :
  length (pipeline n sqw biquads).1.1 = n
  /\ length (pipeline n sqw biquads).2 = length biquads.
Proof.
  unfold pipeline. pose proof (generate_length (D:=D) n sqw) as Hg.
  destruct (generate n sqw) as [g s1].
  pose proof (cascade_passes_length biquads g) as [Hc1 Hc2].
  destruct (cascade_passes biquads g). simpl in *. lia.
Qed.

(** Cutting a run of [count * n] samples into [count] buffers of [n]
    changes neither the samples nor the final states. *)
Lemma pipeline_n_concat count n sqw (biquads : list (Biquad D)) outs :
  let one := pipeline (count * n) sqw biquads in
  let many := pipeline_n count n sqw biquads outs in
  concat many.1.1 = concat outs ++ one.1.1
  /\ many.1.2 = one.1.2 /\ many.2 = one.2.
Proof.
  revert sqw biquads outs. induction count as [|count IH]; intros sqw biquads outs.
  - cbn [Nat.mul pipeline_n]. rewrite pipeline_0. simpl. by rewrite app_nil_r.
  - cbn [Nat.mul pipeline_n]. rewrite pipeline_app.
    destruct (pipeline n sqw biquads) as [[a s1] bs1].
    specialize (IH s1 bs1 (outs ++ [a])). cbn zeta in IH.
    destruct (pipeline (count * n) s1 bs1) as [[b s2] bs2].
    destruct (pipeline_n count n s1 bs1 (outs ++ [a])) as [[o s3] bs3].
    simpl in *. destruct IH as (-> & -> & ->).
    rewrite concat_app. simpl. by rewrite app_nil_r, <- app_assoc.
Qed.

Lemma pipeline_n_length count n sqw (biquads : list (Biquad D)) outs :
  length (pipeline_n count n sqw biquads outs).1.1 = (length outs + count)%nat
  /\ length (pipeline_n count n sqw biquads outs).2 = length biquads.
Proof.
  revert sqw biquads outs. induction count as [|count IH]; intros sqw biquads outs.
  - simpl. lia.
  - cbn [pipeline_n]. pose proof (pipeline_length n sqw biquads) as [_ Hb].
    destruct (pipeline n sqw biquads) as [[a s1] bs1].
    destruct (IH s1 bs1 (outs ++ [a])) as [H1 H2].
    rewrite H1, H2, length_app. simpl in *. lia.
Qed.

(** One pass of the inner loop of [main]. *)
Lemma buffer_body_pipeline i (st : TrialState D) :
  fits_uint (length (t_buf st)) -> fits_uint (length (t_biquads st)) ->
  buffer_body (Z.of_nat (length (t_biquads st))) i st
  = let '(out, sqw', biquads') :=
      pipeline (length (t_buf st)) (t_sqw st) (t_biquads st) in
    Some (mkTrialState out sqw' biquads' (written st ++ [out])).
Proof.
  intros Hbuf Hbq. unfold buffer_body, pipeline.
  rewrite fill_buffer_generate by done.
  pose proof (generate_length (D:=D) (length (t_buf st)) (t_sqw st)) as Hg.
  destruct (generate (length (t_buf st)) (t_sqw st)) as [g s1].
  cbn [mbind option_bind fst snd] in *.
  rewrite apply_filters_passes by (unfold fits_uint in *; (done || lia)).
  by destruct (cascade_passes (t_biquads st) g).
Qed.

Lemma buffer_body_returns i (st st' : TrialState D) :
  buffer_body (Z.of_nat (length (t_biquads st))) i st = Some st' ->
  fits_uint (length (t_buf st)) /\ fits_uint (length (t_biquads st)).
Proof.
  unfold buffer_body. intros Hrun.
  destruct (fill_buffer (t_buf st) (t_sqw st)) as [[buf sqw]|] eqn:Efill;
    [|done].
  apply fill_buffer_returns in Efill as [Hfit _]. split; [done|].
  cbn [mbind option_bind] in Hrun.
  destruct (apply_filters _ buf (t_biquads st)) as [res|] eqn:Eapp; [|done].
  by apply apply_filters_returns in Eapp as (_ & ? & _).
Qed.

Lemma buffers_fold (n : nat) i (st : TrialState D) :
  fits_uint (length (t_buf st)) -> fits_uint (length (t_biquads st)) ->
  exists buf,
    fold_range (buffer_body (Z.of_nat (length (t_biquads st)))) i n st
    = (let '(outs, sqw', biquads') :=
         pipeline_n n (length (t_buf st)) (t_sqw st) (t_biquads st) (written st) in
       Some (mkTrialState buf sqw' biquads' outs))
    /\ length buf = length (t_buf st).
Proof.
  revert i st. induction n as [|n IH]; intros i st Hbuf Hbq.
  - exists (t_buf st). by destruct st.
  - cbn [fold_range pipeline_n]. rewrite buffer_body_pipeline by done.
    pose proof (pipeline_length (length (t_buf st)) (t_sqw st) (t_biquads st))
      as [Hl1 Hl2].
    destruct (pipeline (length (t_buf st)) (t_sqw st) (t_biquads st))
      as [[out s1] bs1]. cbn [mbind option_bind fst snd] in *.
    destruct (IH (i + 1) (mkTrialState out s1 bs1 (written st ++ [out])))
      as (buf & Hrun & Hlen); cbn [t_buf t_biquads t_sqw written] in *;
      try (unfold fits_uint in *; lia).
    exists buf. rewrite <- Hl2, Hrun, Hl1. split; [done | lia].
Qed.

(** The inner loop of [main]: [buffer_count] passes, state carried over. *)
Lemma run_buffers_pipeline (buffer_count : Z) (st : TrialState D) :
  0 <= buffer_count < UINT_MOD ->
  fits_uint (length (t_buf st)) -> fits_uint (length (t_biquads st)) ->
  exists buf,
    run_buffers (Z.of_nat (length (t_biquads st))) buffer_count st
    = (let '(outs, sqw', biquads') :=
         pipeline_n (Z.to_nat buffer_count) (length (t_buf st)) (t_sqw st)
           (t_biquads st) (written st) in
       Some (mkTrialState buf sqw' biquads' outs))
    /\ length buf = length (t_buf st).
Proof.
  intros Hc Hbuf Hbq. unfold run_buffers.
  rewrite for_uint_fold; [|done|lia|lia|lia].
  rewrite Z.sub_0_r. by apply buffers_fold.
Qed.

(** A single pass that returns shows that both sizes fit. *)
Lemma run_once_returns (st st' : TrialState D) :
  run_buffers (Z.of_nat (length (t_biquads st))) 1 st = Some st' ->
  fits_uint (length (t_buf st)) /\ fits_uint (length (t_biquads st)).
Proof.
  unfold run_buffers. change (Z.to_nat 1) with 1%nat. cbn [for_uint].
  change (0 <? 1) with true. cbv iota.
  destruct (buffer_body _ 0 st) as [st1|] eqn:E; [|done].
  intros _. by apply buffer_body_returns in E.
Qed.

End Continuity.

(** ** The generator as a clock *)

Section Clock.
Context {D : Type} {num : Real64 D}.
Variable hp : Z.
Hypothesis hp_pos : 1 <= hp.
Hypothesis hp_size : hp < SIZE_MOD.

Lemma phase_reset sqw : switch_samples sqw = hp -> phase hp 0 (SquareWave_reset sqw).
Proof. intros Hs. exists 0. simpl. repeat split; (done || lia). Qed.

Lemma phase_next t sqw :
  phase hp t sqw ->
  (next_sample (D:=D) sqw).1 = square_sample hp t
  /\ phase hp (t + 1) (next_sample (D:=D) sqw).2.
Proof.
  intros (k & Hk & Ht & Hp & Hst & Hsw).
  unfold next_sample, square_sample. cbn [fst snd]. rewrite Hsw.
  destruct (Z.eqb_spec (progress sqw) hp) as [Heq|Hne].
  - assert (t / hp = k + 1) as ->
      by (symmetry; apply (Z.div_unique_pos _ _ _ 0); lia).
    rewrite Hst, Z.negb_odd, <- Z.odd_succ. split; [done|].
    exists (k + 1). cbn [progress status switch_samples].
    rewrite size_succ_small by (unfold SIZE_MOD in *; lia).
    repeat split; (done || lia).
  - assert (t / hp = k) as ->
      by (symmetry; apply (Z.div_unique_pos _ _ _ (progress sqw)); lia).
    rewrite Hst. split; [done|].
    exists k. cbn [progress status switch_samples].
    rewrite size_succ_small by lia. repeat split; (done || lia).
Qed.

Lemma phase_generate n t sqw :
  phase hp t sqw ->
  (forall j : nat, (j < n)%nat ->
     (generate (D:=D) n sqw).1 !! j = Some (square_sample hp (t + Z.of_nat j)))
  /\ phase hp (t + Z.of_nat n) (generate (D:=D) n sqw).2.
Proof.
  revert t sqw. induction n as [|n IH]; intros t sqw Hph.
  - split; [lia|]. simpl. by rewrite Z.add_0_r.
  - cbn [generate]. destruct (phase_next t sqw Hph) as [Hv Hph1].
    destruct (next_sample sqw) as [v sqw1]. cbn [fst snd] in *.
    destruct (IH (t + 1) sqw1 Hph1) as [Hrest Hph2].
    destruct (generate n sqw1) as [vs sqw2]. cbn [fst snd] in *. split.
    + intros [|j] Hj; simpl.
      * by rewrite Z.add_0_r, Hv.
      * rewrite Hrest by lia. do 2 f_equal. lia.
    + by replace (t + Z.of_nat (S n)) with (t + 1 + Z.of_nat n) by lia.
Qed.

End Clock.

Section FillBuffers.
Context {D : Type} {num : Real64 D}.

(** Successive fills write one uninterrupted stream of samples. *)
Lemma fill_buffers_generate (bufs : list (list D)) sqw :
  Forall (fun buf => fits_uint (length buf)) bufs ->
  exists outs,
    fill_buffers bufs sqw
    = Some (outs, (generate (D:=D) (length (concat bufs)) sqw).2)
    /\ concat outs = (generate (D:=D) (length (concat bufs)) sqw).1
    /\ map length outs = map length bufs.
Proof.
  intros Hfit. revert sqw. induction Hfit as [|buf bufs Hb _ IH]; intros sqw.
  - by exists [].
  - cbn [fill_buffers concat]. rewrite length_app, generate_app.
    rewrite fill_buffer_generate by done.
    pose proof (generate_length (D:=D) (length buf) sqw) as Hlen.
    destruct (generate (length buf) sqw) as [out sqw1].
    cbn [mbind option_bind fst snd] in *.
    destruct (IH sqw1) as (outs & -> & Hcat & Hlens).
    cbn [mbind option_bind]. exists (out :: outs). simpl.
    by rewrite Hcat, Hlen, Hlens.
Qed.

Lemma fill_buffers_returns (bufs : list (list D)) sqw r :
  fill_buffers bufs sqw = Some r ->
  Forall (fun buf => fits_uint (length buf)) bufs.
Proof.
  revert sqw r. induction bufs as [|buf bufs IH]; intros sqw r Hrun; [done|].
  cbn [fill_buffers] in Hrun.
  destruct (fill_buffer buf sqw) as [[out sqw1]|] eqn:E; [|done].
  cbn [mbind option_bind] in Hrun.
  destruct (fill_buffers bufs sqw1) as [r1|] eqn:E1; [|done].
  apply fill_buffer_returns in E as [Hfit _].
  constructor; [done|]. by eapply IH.
Qed.

(** [fill_buffer] keeps the half period. *)
Lemma generate_switch_samples n sqw :
  switch_samples (generate (D:=D) n sqw).2 = switch_samples sqw.
Proof.
  revert sqw. induction n as [|n IH]; intros sqw; [done|].
  cbn [generate].
  assert (switch_samples (next_sample (D:=D) sqw).2 = switch_samples sqw)
    as Hsw1 by done.
  destruct (next_sample sqw) as [v sqw1]. cbn [fst snd] in *.
  specialize (IH sqw1). destruct (generate n sqw1). cbn [fst snd] in *.
  congruence.
Qed.

Lemma next_sample_bounded sqw :
  1 <= switch_samples sqw -> progress_bounded sqw ->
  progress_bounded (next_sample (D:=D) sqw).2.
Proof.
  unfold progress_bounded, next_sample. cbn [snd progress switch_samples].
  intros Hsw Hp. destruct (Z.eqb_spec (progress sqw) (switch_samples sqw)).
  - pose proof (size_succ_bounds 0). lia.
  - pose proof (size_succ_bounds (progress sqw)). lia.
Qed.

Lemma generate_bounded n sqw :
  1 <= switch_samples sqw -> progress_bounded sqw ->
  progress_bounded (generate (D:=D) n sqw).2.
Proof.
  revert sqw. induction n as [|n IH]; intros sqw Hsw Hp; [done|].
  cbn [generate]. pose proof (next_sample_bounded sqw Hsw Hp) as Hp1.
  assert (switch_samples (next_sample (D:=D) sqw).2 = switch_samples sqw)
    as Hsw1 by done.
  destruct (next_sample sqw) as [v sqw1]. cbn [fst snd] in *.
  specialize (IH sqw1). destruct (generate n sqw1). cbn [snd] in *.
  apply IH; [lia | done].
Qed.

End FillBuffers.

(** ** Exact real arithmetic *)

Section ExactReals.

Lemma c_trunc_IZR z : c_trunc (IZR z) = z.
Proof.
  unfold c_trunc. destruct (Rle_dec 0 (IZR z)); [apply ZfloorZ|].
  unfold Zceil. rewrite ZfloorNZ. lia.
Qed.

Lemma c_round_IZR z : c_round (IZR z) = z.
Proof.
  unfold c_round. destruct (Rle_dec 0 (IZR z)).
  - apply Zfloor_eq. lra.
  - apply Zceil_eq. lra.
Qed.

Lemma c_round_ge_1 x : (1 <= x)%R -> 1 <= c_round x.
Proof.
  intros Hx. unfold c_round. destruct (Rle_dec 0 x); [|lra].
  apply Zfloor_lub. lra.
Qed.

Lemma c_round_below_half x : (0 <= x < / 2)%R -> c_round x = 0.
Proof.
  intros Hx. unfold c_round. destruct (Rle_dec 0 x); [|lra].
  apply Zfloor_eq. lra.
Qed.

Lemma half_period_above_1 fs f : (0 < f)%R -> (2 * f < fs)%R -> (1 < fs / f / 2)%R.
Proof.
  intros Hf Hfs. apply (Rmult_lt_reg_r (2 * f)); [lra|].
  replace (fs / f / 2 * (2 * f))%R with fs by (field; lra). lra.
Qed.

(** The constructor over the reals: the half period is [c_round] of the
    quotient whenever that fits [size_t]. *)
Lemma SquareWave_new_real (fs f : R) :
  SquareWave_new fs f
  = (s ← to_size_t (c_round (fs / f / 2)); Some (mkSquareWave s false 0)).
Proof. unfold SquareWave_new. simpl. by rewrite c_trunc_IZR. Qed.

Lemma Rpower_2_IZR l : 0 <= l -> Rpower 2 (IZR l) = IZR (2 ^ l).
Proof.
  intros Hl. rewrite <- (Z2Nat.id l) at 1 by done.
  rewrite <- INR_IZR_INZ, Rpower_pow by lra.
  rewrite pow_IZR. by rewrite Z2Nat.id.
Qed.

Lemma half_differs : (ddec 5 10 : R) <> (- ddec 5 10)%D.
Proof. simpl. lra. Qed.

End ExactReals.

(** * The claims *)

Section Claims.
Context {D : Type} {num : Real64 D}.

(** C1. [peak_eq] returns the normalised Audio EQ Cookbook peaking
    coefficients: with [A = 10^(db_gain/40)], [omega = 2*pi*f0/fs],
    [alpha = sin(omega)/(2q)] and [a0 = 1 + alpha/A] the five coefficients
    are [(1 + alpha*A)/a0], [(-2*cos omega)/a0], [(1 - alpha*A)/a0],
    [a1 = b1] and [(1 - alpha/A)/a0], that is the cookbook's six numbers
    divided by [a0], which itself is not kept; the state starts at zero.
    This holds for every way of computing on doubles, every [q] included. *)
Theorem peak_eq_cookbook {libm : Libm D} (fs f0 q db_gain : D) :
  let A := dpow (dint 10) (db_gain / dint 40)%D in
  let omega := (dint 2 * M_PIl * f0 / fs)%D in
  let alpha := (dsin omega / (dint 2 * q))%D in
  let a0 := (dint 1 + alpha / A)%D in
  let bq := peak_eq fs f0 q db_gain in
  b0 bq = ((dint 1 + alpha * A) / a0)%D
  /\ b1 bq = ((dint (-2) * dcos omega) / a0)%D
  /\ b2 bq = ((dint 1 - alpha * A) / a0)%D
  /\ a2 bq = ((dint 1 - alpha / A) / a0)%D
  /\ a1 bq = b1 bq
  /\ coefficients bq = normalized (cookbook_peaking fs f0 q db_gain)
  /\ state bq = (dint 0, dint 0, dint 0, dint 0).
Proof. cbv zeta. unfold peak_eq, coefficients, state. simpl. by repeat split. Qed.

(** C2. [iir] visits the slots of the buffer from left to right; the slot
    holding [x] is overwritten with
    [y = b0*x + b1*x1 + b2*x2 - a1*y1 - a2*y2] and the state becomes
    [x2 = x1, x1 = x, y2 = y1, y1 = y] before the next slot is read.  This
    is what any call that returns has done, and the call returns on every
    buffer whose size the loop counter reaches. *)
Theorem iir_recurrence (buf : list D) (bq : Biquad D) :
  (forall r, iir buf bq = Some r -> r = filter_seq bq buf)
  /\ (fits_uint (length buf) -> iir buf bq = Some (filter_seq bq buf))
  /\ (forall x,
        process_sample bq x
        = let y := (b0 bq * x + b1 bq * x1 bq + b2 bq * x2 bq
                    - a1 bq * y1 bq - a2 bq * y2 bq)%D in
          (y, mkBiquad (b0 bq) (b1 bq) (b2 bq) (a1 bq) (a2 bq)
                x (x1 bq) y (y1 bq))).
Proof.
  split; [|split; [|done]].
  - intros r Hrun. by apply iir_returns in Hrun as [_ ->].
  - apply iir_filter_seq.
Qed.

(** C6. The loop of the harness, which lets each filter make a full pass
    over the buffer, filter after filter, leaves the same buffer and the
    same filter states as passing each sample through the whole cascade
    before the next sample is touched.  This is what any run of the loop
    that returns has done, and the loop returns whenever the sizes of the
    buffer and of the cascade are within the reach of the loop counters. *)
Theorem cascade_order (buf : list D) (biquads : list (Biquad D)) :
  (forall r,
     apply_filters (Z.of_nat (length biquads)) buf biquads = Some r ->
     r = cascade_per_sample biquads buf)
  /\ (fits_uint (length buf) -> fits_uint (length biquads) ->
      apply_filters (Z.of_nat (length biquads)) buf biquads
      = Some (cascade_per_sample biquads buf)).
Proof.
  rewrite cascade_per_sample_passes. split.
  - intros r Hrun. by apply apply_filters_returns in Hrun as [-> _].
  - intros Hbuf Hbq. by apply apply_filters_passes.
Qed.

Lemma buffer_split_fits (T L : Z) (buf_T buf_L : list D) (sqw : SquareWave)
    (biquads : list (Biquad D)) :
  0 < L -> T mod L = 0 -> T < UINT_MOD ->
  Z.of_nat (length buf_T) = T -> Z.of_nat (length buf_L) = L ->
  fits_uint (length biquads) ->
  let filter_count := Z.of_nat (length biquads) in
  exists one many,
    run_buffers filter_count 1 (mkTrialState buf_T sqw biquads []) = Some one
    /\ run_buffers filter_count (T / L) (mkTrialState buf_L sqw biquads [])
       = Some many
    /\ same_run one many.
Proof.
  intros HL Hdiv HT HlenT HlenL Hbq filter_count.
  assert (0 <= T) as HT0 by lia.
  destruct (run_buffers_pipeline 1 (mkTrialState buf_T sqw biquads []))
    as (b1' & Hone & _); cbn [t_buf t_biquads];
    try (unfold fits_uint, UINT_MOD in *; lia).
  cbn [t_buf t_sqw t_biquads written] in Hone.
  change (Z.to_nat 1) with 1%nat in Hone. cbn [pipeline_n] in Hone.
  destruct (Z.eq_dec T 0) as [HT_0|HT_pos].
  - (* no sample at all: an empty buffer on one side, no buffer on the other *)
    assert (length buf_T = 0%nat) as Hnil by lia.
    rewrite Hnil, pipeline_0 in Hone.
    eexists _, _. split; [exact Hone|]. rewrite HT_0, Z.div_0_l by lia.
    split; [reflexivity|]. done.
  - assert (L <= T) as HLT.
    { apply Z.divide_pos_le; [lia|]. by apply Z.mod_divide; [lia|]. }
    assert (0 <= T / L <= T) as Hcount.
    { split; [apply Z.div_pos; lia|]. apply Z.div_le_upper_bound; nia. }
    destruct (run_buffers_pipeline (T / L) (mkTrialState buf_L sqw biquads []))
      as (b2' & Hmany & _); cbn [t_buf t_biquads];
      try (unfold fits_uint, UINT_MOD in *; lia).
    cbn [t_buf t_sqw t_biquads written] in Hmany.
    pose proof (pipeline_n_concat (Z.to_nat (T / L)) (length buf_L) sqw
                  biquads []) as Hcat. cbn zeta in Hcat.
    replace (Z.to_nat (T / L) * length buf_L)%nat with (length buf_T) in Hcat.
    2:{ apply Nat2Z.inj. rewrite Nat2Z.inj_mul, Z2Nat.id, HlenT, HlenL by lia.
        rewrite Z.mul_comm. apply Z.div_exact; lia. }
    destruct (pipeline (length buf_T) sqw biquads) as [[out s1] bs1].
    destruct (pipeline_n (Z.to_nat (T / L)) (length buf_L) sqw biquads [])
      as [[outs s2] bs2].
    cbn [fst snd] in Hcat. destruct Hcat as (Hc & -> & ->).
    eexists _, _. split; [exact Hone|]. split; [exact Hmany|].
    unfold same_run. cbn [written t_sqw t_biquads]. rewrite Hc. simpl.
    by rewrite app_nil_r.
Qed.

(** C5. With [L] dividing [T], one buffer of [T] samples and [T/L] buffers
    of [L] samples give, from the same generator and filter states, the
    same samples in the same order and the same final states: whenever the
    two runs return they agree, and they return when [T] and the number of
    filters are within the reach of the loop counters. *)
Theorem buffer_split (T L : Z) (buf_T buf_L : list D) (sqw : SquareWave)
    (biquads : list (Biquad D)) :
  0 < L -> T mod L = 0 ->
  Z.of_nat (length buf_T) = T -> Z.of_nat (length buf_L) = L ->
  let filter_count := Z.of_nat (length biquads) in
  let run_one :=
    run_buffers filter_count 1 (mkTrialState buf_T sqw biquads []) in
  let run_many :=
    run_buffers filter_count (T / L) (mkTrialState buf_L sqw biquads []) in
  (forall one many,
     run_one = Some one -> run_many = Some many -> same_run one many)
  /\ (T < UINT_MOD -> fits_uint (length biquads) ->
      exists one many,
        run_one = Some one /\ run_many = Some many /\ same_run one many).
Proof.
  intros HL Hdiv HlenT HlenL filter_count run_one run_many. split.
  - intros one many Hone Hmany.
    destruct (run_once_returns _ _ Hone) as [HfitT Hbq].
    cbn [t_buf t_biquads] in *.
    destruct (buffer_split_fits T L buf_T buf_L sqw biquads)
      as (one' & many' & Hone' & Hmany' & Hsame);
      try done; [unfold fits_uint in HfitT; lia|].
    unfold run_one, run_many, filter_count in *. congruence.
  - intros HT Hbq. by apply buffer_split_fits.
Qed.

(** C10. [iir] changes the values held by the buffer and the state members
    [x1, x2, y1, y2] and nothing else: the length of the buffer and the five
    coefficients are as before the call.  Likewise [fill_buffer] leaves the
    length of the buffer and [switch_samples] as they were.  Both calls
    return for every buffer whose size the loop counter can reach. *)
Theorem buffer_frame (buf : list D) :
  (forall bq buf' bq',
     iir buf bq = Some (buf', bq') ->
     length buf' = length buf /\ coefficients bq' = coefficients bq)
  /\ (forall sqw buf' sqw',
        fill_buffer buf sqw = Some (buf', sqw') ->
        length buf' = length buf /\ switch_samples sqw' = switch_samples sqw)
  /\ (fits_uint (length buf) ->
      forall bq sqw, is_Some (iir buf bq) /\ is_Some (fill_buffer buf sqw)).
Proof.
  split; [|split].
  - intros bq buf' bq' Hrun.
    apply (for_uint_invariant _ _
             (fun st => length st.1 = length buf
                        /\ coefficients st.2 = coefficients bq)) in Hrun;
      [done| |done].
    intros i [b q] [b' q'] [Hl Hc]. unfold iir_body.
    destruct (b !! Z.to_nat i) as [x|]; [|done]. cbn [mbind option_bind].
    destruct (_ !! Z.to_nat i) as [y|]; [|done]. intros [= <- <-].
    cbn [fst snd] in *. by rewrite length_insert.
  - intros sqw buf' sqw' Hrun.
    apply (for_uint_invariant _ _
             (fun st => length st.1 = length buf
                        /\ switch_samples st.2 = switch_samples sqw)) in Hrun;
      [done| |done].
    intros i [b s] [b' s'] [Hl Hc]. rewrite fill_body_next_sample.
    intros [= <- <-]. cbn [fst snd] in *. by rewrite length_insert.
  - intros Hfit bq sqw.
    by rewrite iir_filter_seq, fill_buffer_generate.
Qed.

(** C7. After [reset()] a generator or a filter is the freshly constructed
    instance with the same parameters, so it answers every input in the
    same way: [SquareWave::reset] restores [status = false, progress = 0],
    [Biquad::reset] restores [x1 = x2 = y1 = y2 = 0.0] and keeps the
    coefficients, [reset_biquads] does so for every filter of the vector. *)
Theorem reset_as_fresh {libm : Libm D} :
  (forall (fs f : D) sqw0 sqw,
     SquareWave_new fs f = Some sqw0 ->
     switch_samples sqw = switch_samples sqw0 ->
     SquareWave_reset sqw = sqw0
     /\ forall buf : list D,
          fill_buffer buf (SquareWave_reset sqw) = fill_buffer buf sqw0)
  /\ (forall (fs f0 q db_gain : D) bq,
        coefficients bq = coefficients (peak_eq fs f0 q db_gain) ->
        Biquad_reset bq = peak_eq fs f0 q db_gain
        /\ forall buf : list D,
             iir buf (Biquad_reset bq) = iir buf (peak_eq fs f0 q db_gain))
  /\ (forall bq : Biquad D,
        coefficients (Biquad_reset bq) = coefficients bq
        /\ state (Biquad_reset bq) = (dint 0, dint 0, dint 0, dint 0))
  /\ (forall biquads fresh : list (Biquad D),
        Forall2 (fun bq bq0 => coefficients bq = coefficients bq0
                               /\ state bq0 = (dint 0, dint 0, dint 0, dint 0))
          biquads fresh ->
        reset_biquads biquads = fresh).
Proof.
  split; [|split; [|split]].
  - intros fs f sqw0 sqw Hnew Hsw.
    assert (SquareWave_reset sqw = sqw0) as ->; [|done].
    unfold SquareWave_new in Hnew.
    destruct (dtrunc _) as [r|]; [|done]. cbn [mbind option_bind] in Hnew.
    destruct (to_size_t r) as [s|]; [|done]. injection Hnew as <-.
    unfold SquareWave_reset. by rewrite Hsw.
  - intros fs f0 q db_gain bq Hc.
    assert (Biquad_reset bq = peak_eq fs f0 q db_gain) as ->; [|done].
    destruct bq. unfold coefficients in Hc. simpl in Hc.
    injection Hc as -> -> -> -> ->. done.
  - by intros [].
  - intros biquads fresh Hall. unfold reset_biquads.
    induction Hall as [|bq bq0 biquads fresh [Hc Hs] _ IH]; [done|].
    cbn [map]. rewrite IH. f_equal.
    destruct bq, bq0. unfold coefficients, state in *. simpl in *.
    injection Hc as -> -> -> -> ->. injection Hs as -> -> -> ->. done.
Qed.

End Claims.

Section GeneratorClaims.

Lemma square_sample_period {D : Type} {num : Real64 D} hp k :
  1 <= hp -> square_sample (D:=D) hp (k + 2 * hp) = square_sample hp k.
Proof.
  intros Hhp. unfold square_sample.
  rewrite Z.div_add by lia.
  replace (k / hp + 2) with (Z.succ (Z.succ (k / hp))) by lia.
  by rewrite Z.odd_succ_succ.
Qed.

Lemma square_sample_low {D : Type} {num : Real64 D} hp k :
  0 <= k < hp -> square_sample (D:=D) hp k = (- ddec 5 10)%D.
Proof. intros Hk. unfold square_sample. by rewrite Z.div_small. Qed.

Lemma square_sample_high {D : Type} {num : Real64 D} hp k :
  hp <= k < 2 * hp -> square_sample (D:=D) hp k = ddec 5 10.
Proof.
  intros Hk. unfold square_sample.
  by replace (k / hp) with 1 by (apply (Z.div_unique_pos _ _ _ (k - hp)); lia).
Qed.

Lemma main_generator_real :
  SquareWave_new (D:=R) SAMPLE_RATE (dint 50) = Some (mkSquareWave 480 false 0).
Proof.
  rewrite SquareWave_new_real.
  replace (SAMPLE_RATE / dint 50 / 2)%R with (IZR 480)
    by (unfold SAMPLE_RATE; simpl; lra).
  by rewrite c_round_IZR.
Qed.

(** A reset generator of half period [hp] fills any succession of buffers
    with the square wave that starts low. *)
Lemma reset_fill_square {D : Type} {num : Real64 D} hp sqw
    (bufs : list (list D)) :
  1 <= hp < SIZE_MOD -> switch_samples sqw = hp ->
  Forall (fun buf => fits_uint (length buf)) bufs ->
  exists outs sqw',
    fill_buffers bufs (SquareWave_reset sqw) = Some (outs, sqw')
    /\ map length outs = map length bufs
    /\ forall k : nat, (k < length (concat outs))%nat ->
         concat outs !! k = Some (square_sample hp (Z.of_nat k)).
Proof.
  intros [Hhp Hsz] Hsw Hfit.
  destruct (fill_buffers_generate bufs (SquareWave_reset sqw) Hfit)
    as (outs & Hrun & Hcat & Hlens).
  eexists _, _. split; [exact Hrun|]. split; [done|].
  intros k Hk. rewrite Hcat in *. rewrite generate_length in Hk.
  destruct (phase_generate (D:=D) hp Hhp Hsz (length (concat bufs)) 0
              (SquareWave_reset sqw) (phase_reset hp Hhp sqw Hsw)) as [Hs _].
  by rewrite Hs.
Qed.

(** The first 961 samples at a half period of 480. *)
Lemma square_sample_480 {D : Type} {num : Real64 D} (k : nat) :
  (k <= 960)%nat ->
  square_sample (D:=D) 480 (Z.of_nat k)
  = if (k <? 480)%nat || (k =? 960)%nat then (- ddec 5 10)%D else ddec 5 10.
Proof.
  intros Hk. destruct (Nat.ltb_spec k 480) as [Hlow|Hge]; cbn [orb].
  - apply square_sample_low. lia.
  - destruct (Nat.eqb_spec k 960) as [Heq|Hne].
    + replace (Z.of_nat k) with (0 + 2 * 480) by lia.
      rewrite square_sample_period by lia. apply square_sample_low. lia.
    + apply square_sample_high. lia.
Qed.

(** The same for a single call. *)
Lemma reset_fill_one {D : Type} {num : Real64 D} hp sqw (buf : list D) :
  1 <= hp < SIZE_MOD -> switch_samples sqw = hp -> fits_uint (length buf) ->
  exists out sqw',
    fill_buffer buf (SquareWave_reset sqw) = Some (out, sqw')
    /\ forall k : nat, (k < length buf)%nat ->
         out !! k = Some (square_sample hp (Z.of_nat k)).
Proof.
  intros [Hhp Hsz] Hsw Hfit. rewrite fill_buffer_generate by done.
  destruct (phase_generate (D:=D) hp Hhp Hsz (length buf) 0
              (SquareWave_reset sqw) (phase_reset hp Hhp sqw Hsw)) as [Hs _].
  destruct (generate (length buf) (SquareWave_reset sqw)) as [out sqw'].
  by exists out, sqw'.
Qed.

(** The scenario of 50 Hz at 48000 Hz, for an arithmetic in which the
    constructor finds the half period 480. *)
Lemma scenario_480 {D : Type} {num : Real64 D} {libm : Libm D} :
  SquareWave_new (D:=D) SAMPLE_RATE (dint 50) = Some (mkSquareWave 480 false 0) ->
  exists g out g',
    SquareWave_new (D:=D) SAMPLE_RATE (dint 50) = Some g
    /\ switch_samples g = 480
    /\ fill_buffer (replicate 961 (dint 0 : D)) (SquareWave_reset g)
       = Some (out, g')
    /\ forall k : nat, (k <= 960)%nat ->
         out !! k
         = Some (if (k <? 480)%nat || (k =? 960)%nat
                 then (- ddec 5 10)%D else ddec 5 10).
Proof.
  intros Hnew.
  assert (fits_uint (length (replicate 961 (dint 0 : D)))) as Hfit961.
  { unfold fits_uint. rewrite length_replicate. reflexivity. }
  destruct (reset_fill_one 480 (mkSquareWave 480 false 0) _
              ltac:(unfold SIZE_MOD; lia) eq_refl Hfit961)
    as (out & g' & Hrun & Hout).
  exists (mkSquareWave 480 false 0), out, g'.
  split; [exact Hnew|]. split; [reflexivity|]. split; [exact Hrun|].
  intros k Hk. rewrite length_replicate in Hout. rewrite Hout by lia.
  f_equal. apply square_sample_480. exact Hk.
Qed.

(** ** Binary64: the half period under [f > 0] and [fs > 2 f] *)

Lemma digits_log2 (m : positive) : digits m = Z.log2 (Z.pos m) + 1.
Proof.
  unfold digits.
  assert (digits2_pos m = Pos.size m) as ->.
  { induction m as [m IH|m IH|]; cbn [digits2_pos Pos.size]; congruence. }
  destruct m; cbn [Z.log2 Pos.size]; lia.
Qed.

Lemma digits_bounds (m : positive) :
  2 ^ (digits m - 1) <= Z.pos m < 2 ^ digits m.
Proof.
  rewrite digits_log2. replace (Z.log2 (Z.pos m) + 1 - 1) with (Z.log2 (Z.pos m)) by lia.
  apply Z.log2_spec. lia.
Qed.

Lemma digits_pos (m : positive) : 1 <= digits m.
Proof. unfold digits. lia. Qed.

Lemma digits_ge (m : positive) (j : Z) : 2 ^ j <= Z.pos m -> j + 1 <= digits m.
Proof.
  intros H. pose proof (digits_bounds m) as [_ Hu]. pose proof (digits_pos m).
  destruct (Z.le_gt_cases 0 j) as [Hj|Hj]; [|lia].
  apply Z.lt_succ_r. apply Z.lt_succ_r. unfold Z.succ.
  assert (j < digits m); [|lia].
  apply (Z.pow_lt_mono_r_iff 2); lia.
Qed.

Lemma digits_le (m : positive) (j : Z) : Z.pos m < 2 ^ j -> digits m <= j.
Proof.
  intros H. pose proof (digits_bounds m) as [Hl _]. pose proof (digits_pos m).
  destruct (Z.le_gt_cases 0 j) as [Hj|Hj].
  - assert (digits m - 1 < j); [|lia]. apply (Z.pow_lt_mono_r_iff 2); lia.
  - rewrite Z.pow_neg_r in H by lia. lia.
Qed.

Lemma digits_mono (m m' : positive) : (m <= m')%positive -> digits m <= digits m'.
Proof.
  intros H. pose proof (digits_bounds m) as [Hl _].
  assert (digits m - 1 + 1 <= digits m'); [|lia]. apply digits_ge. lia.
Qed.

Lemma pow2_pos (j : Z) : 0 <= j -> 0 < 2 ^ j.
Proof. intros. apply Z.pow_pos_nonneg; lia. Qed.

Lemma shr_1_m (mrs : shr_record) :
  0 <= shr_m mrs -> shr_m (shr_1 mrs) = shr_m mrs / 2.
Proof.
  destruct mrs as [m r s]. cbn [shr_m]. intros Hm.
  rewrite <- Z.div2_div.
  destruct m as [|[p|p|]|]; try reflexivity. lia.
Qed.

Lemma shr_iter_m (p : positive) : forall mrs : shr_record,
  0 <= shr_m mrs -> shr_m (SpecFloat.iter_pos shr_1 p mrs) = shr_m mrs / 2 ^ Z.pos p.
Proof.
  induction p as [p IH|p IH|]; intros mrs Hm; cbn [SpecFloat.iter_pos].
  - assert (0 <= shr_m (shr_1 mrs)) as H1.
    { rewrite shr_1_m by done. apply Z.div_pos; lia. }
    assert (0 <= shr_m (SpecFloat.iter_pos shr_1 p (shr_1 mrs))) as H2.
    { rewrite IH by done. apply Z.div_pos; [done|]. apply pow2_pos; lia. }
    rewrite IH by done. rewrite IH by done. rewrite shr_1_m by done.
    pose proof (pow2_pos (Z.pos p) ltac:(lia)).
    rewrite !Z.div_div by lia. f_equal.
    replace (Z.pos p~1) with (1 + Z.pos p + Z.pos p) by lia.
    rewrite !Z.pow_add_r by lia. lia.
  - assert (0 <= shr_m (SpecFloat.iter_pos shr_1 p mrs)) as H2.
    { rewrite IH by done. apply Z.div_pos; [done|]. apply pow2_pos; lia. }
    rewrite IH by done. rewrite IH by done.
    pose proof (pow2_pos (Z.pos p) ltac:(lia)).
    rewrite !Z.div_div by lia. f_equal.
    replace (Z.pos p~0) with (Z.pos p + Z.pos p) by lia.
    rewrite !Z.pow_add_r by lia. lia.
  - rewrite shr_1_m by done. reflexivity.
Qed.

Lemma div_pow2_bounds (a d p : Z) :
  0 <= p < d -> 2 ^ (d - 1) <= a < 2 ^ d ->
  2 ^ (d - 1 - p) <= a / 2 ^ p < 2 ^ (d - p).
Proof.
  intros Hp [Hl Hu]. pose proof (pow2_pos p ltac:(lia)).
  split.
  - apply Z.div_le_lower_bound; [done|].
    rewrite <- Z.pow_add_r by lia. replace (p + (d - 1 - p)) with (d - 1) by lia.
    done.
  - apply Z.div_lt_upper_bound; [done|].
    rewrite <- Z.pow_add_r by lia. replace (p + (d - p)) with d by lia. done.
Qed.

Lemma digits_unique (m : positive) (j : Z) :
  2 ^ (j - 1) <= Z.pos m < 2 ^ j -> digits m = j.
Proof.
  intros [Hl Hu]. apply digits_ge in Hl. apply digits_le in Hu. lia.
Qed.

Lemma shr_record_of_loc_m (m : Z) (l : location) :
  shr_m (shr_record_of_loc m l) = m.
Proof. by destruct l as [|[]]. Qed.

(** Shifting to the exponent of the format keeps the magnitude. *)
Lemma shr_fexp_magnitude (m : positive) (e : Z) (l : location) :
  SpecFloat.emin prec emax < digits m + e ->
  exists mrs m' e',
    shr_fexp prec emax (Z.pos m) e l = (mrs, e')
    /\ shr_m mrs = Z.pos m'
    /\ digits m' + e' = digits m + e.
Proof.
  intros HM. unfold shr_fexp, shr. cbn [Zdigits2]. fold (digits m).
  pose proof (digits_bounds m) as Hb.
  assert (fexp prec emax (digits m + e) - e < digits m) as Hn.
  { unfold fexp, SpecFloat.emin, prec, emax in *. lia. }
  destruct (fexp prec emax (digits m + e) - e) as [|p|p] eqn:Hp.
  - exists (shr_record_of_loc (Z.pos m) l), m, e.
    rewrite shr_record_of_loc_m. by repeat split.
  - pose proof (div_pow2_bounds (Z.pos m) (digits m) (Z.pos p)
                  ltac:(lia) Hb) as Hq.
    assert (0 < Z.pos m / 2 ^ Z.pos p) as Hpos.
    { eapply Z.lt_le_trans; [|apply Hq]. apply pow2_pos. lia. }
    destruct (Z.pos m / 2 ^ Z.pos p) as [|m'|m'] eqn:Hm'; [lia| |lia].
    eexists _, m', _. split; [reflexivity|].
    rewrite shr_iter_m by (rewrite shr_record_of_loc_m; lia).
    rewrite shr_record_of_loc_m. split; [exact Hm'|].
    rewrite (digits_unique m' (digits m - Z.pos p)); [lia|].
    replace (digits m - Z.pos p - 1) with (digits m - 1 - Z.pos p) by lia.
    exact Hq.
  - exists (shr_record_of_loc (Z.pos m) l), m, e.
    rewrite shr_record_of_loc_m. by repeat split.
Qed.

Lemma round_nearest_even_up (m : positive) (l : location) :
  exists m', round_nearest_even (Z.pos m) l = Z.pos m' /\ (m <= m')%positive.
Proof.
  destruct l as [|[]]; cbn [round_nearest_even];
    try destruct (Z.even _); try (exists m; split; [reflexivity|lia]);
    exists (m + 1)%positive; split; try reflexivity; lia.
Qed.

(** Rounding to the format never lowers the magnitude. *)
Lemma binary_round_aux_magnitude (sx : bool) (m : positive) (e : Z)
    (l : location) :
  SpecFloat.emin prec emax < digits m + e ->
  binary_round_aux prec emax sx (Z.pos m) e l = S754_infinity sx
  \/ exists m' e',
       binary_round_aux prec emax sx (Z.pos m) e l = S754_finite sx m' e'
       /\ digits m + e <= digits m' + e'.
Proof.
  intros HM. unfold binary_round_aux.
  destruct (shr_fexp_magnitude m e l HM) as (mrs1 & m1 & e1 & -> & Hm1 & HM1).
  rewrite Hm1.
  destruct (round_nearest_even_up m1 (loc_of_shr_record mrs1))
    as (m2 & -> & Hm2).
  apply digits_mono in Hm2.
  destruct (shr_fexp_magnitude m2 e1 loc_Exact ltac:(lia))
    as (mrs3 & m3 & e3 & -> & -> & HM3).
  destruct (e3 <=? emax - prec); [right|by left].
  exists m3, e3. split; [reflexivity|lia].
Qed.

(** Comparisons of [a * 2^x] with [b * 2^y] do not depend on the common
    shift that makes the exponents natural numbers. *)
Lemma dyadic_le_shift (a b x y c c' : Z) :
  0 <= x + c -> 0 <= y + c -> 0 <= x + c' -> 0 <= y + c' ->
  a * 2 ^ (x + c) <= b * 2 ^ (y + c) -> a * 2 ^ (x + c') <= b * 2 ^ (y + c').
Proof.
  intros Hx Hy Hx' Hy' H.
  destruct (Z.le_gt_cases c c') as [Hc|Hc].
  - replace (x + c') with (x + c + (c' - c)) by lia.
    replace (y + c') with (y + c + (c' - c)) by lia.
    rewrite (Z.pow_add_r 2 (x + c) (c' - c)) by lia.
    rewrite (Z.pow_add_r 2 (y + c) (c' - c)) by lia. rewrite !Z.mul_assoc.
    apply Z.mul_le_mono_nonneg_r; [|done]. apply Z.pow_nonneg. lia.
  - replace (x + c) with (x + c' + (c - c')) in H by lia.
    replace (y + c) with (y + c' + (c - c')) in H by lia.
    rewrite (Z.pow_add_r 2 (x + c') (c - c')) in H by lia.
    rewrite (Z.pow_add_r 2 (y + c') (c - c')) in H by lia.
    rewrite !Z.mul_assoc in H.
    apply Z.mul_le_mono_pos_r in H; [done|]. apply pow2_pos. lia.
Qed.

Lemma dyadic_lt_shift (a b x y c c' : Z) :
  0 <= x + c -> 0 <= y + c -> 0 <= x + c' -> 0 <= y + c' ->
  a * 2 ^ (x + c) < b * 2 ^ (y + c) -> a * 2 ^ (x + c') < b * 2 ^ (y + c').
Proof.
  intros Hx Hy Hx' Hy' H.
  destruct (Z.le_gt_cases c c') as [Hc|Hc].
  - replace (x + c') with (x + c + (c' - c)) by lia.
    replace (y + c') with (y + c + (c' - c)) by lia.
    rewrite (Z.pow_add_r 2 (x + c) (c' - c)) by lia.
    rewrite (Z.pow_add_r 2 (y + c) (c' - c)) by lia. rewrite !Z.mul_assoc.
    apply Z.mul_lt_mono_pos_r; [|done]. apply pow2_pos. lia.
  - replace (x + c) with (x + c' + (c - c')) in H by lia.
    replace (y + c) with (y + c' + (c - c')) in H by lia.
    rewrite (Z.pow_add_r 2 (x + c') (c - c')) in H by lia.
    rewrite (Z.pow_add_r 2 (y + c') (c - c')) in H by lia.
    rewrite !Z.mul_assoc in H.
    apply Z.mul_lt_mono_pos_r in H; [done|]. apply pow2_pos. lia.
Qed.

(** The quotient of two positive doubles whose exact quotient is at least
    [2^k] is an infinity or a double of magnitude above [k]: at least [2^k]
    itself. *)
Lemma SFdiv_lower (m1 m2 : positive) (e1 e2 k c : Z) :
  SpecFloat.emin prec emax <= k ->
  0 <= e1 + c -> 0 <= k + e2 + c ->
  Z.pos m2 * 2 ^ (k + e2 + c) <= Z.pos m1 * 2 ^ (e1 + c) ->
  SFdiv prec emax (S754_finite false m1 e1) (S754_finite false m2 e2)
  = S754_infinity false
  \/ exists m e,
       SFdiv prec emax (S754_finite false m1 e1) (S754_finite false m2 e2)
       = S754_finite false m e
       /\ k + 1 <= digits m + e.
Proof.
  intros Hk Hc1 Hc2 Hle. unfold SFdiv, SFdiv_core_binary.
  cbn [Zdigits2 xorb]. fold (digits m1). fold (digits m2).
  set (D := digits m1 + e1 - (digits m2 + e2)).
  set (e' := Z.min (fexp prec emax D) (e1 - e2)).
  set (s := e1 - e2 - e').
  assert (0 <= s) as Hs by (unfold s, e'; lia).
  assert (match s with
          | 0 => Z.pos m1
          | Z.pos _ => Z.shiftl (Z.pos m1) s
          | Z.neg _ => 0
          end = Z.pos m1 * 2 ^ s) as ->.
  { destruct s as [|p|p] eqn:Hsp; [lia| |lia].
    rewrite Z.shiftl_mul_pow2 by lia. reflexivity. }
  destruct (Z.div_eucl (Z.pos m1 * 2 ^ s) (Z.pos m2)) as [q r] eqn:Hdiv.
  assert (q = Z.pos m1 * 2 ^ s / Z.pos m2) as Hq.
  { unfold Z.div. by rewrite Hdiv. }
  pose proof (digits_bounds m1) as [Hl1 _].
  pose proof (digits_bounds m2) as [_ Hu2].
  pose proof (digits_pos m1). pose proof (digits_pos m2).
  assert (exists mq, q = Z.pos mq /\ k + 1 <= digits mq + e')
    as (mq & -> & Hmag).
  { assert (exists j, 0 <= j /\ k + 1 <= j + 1 + e' /\ 2 ^ j <= q)
      as (j & Hj & Hjk & Hjq).
    { destruct (Z.le_gt_cases e' k) as [He'|He'].
      - exists (k - e'). split; [lia|]. split; [lia|].
        rewrite Hq. apply Z.div_le_lower_bound; [lia|].
        pose proof (dyadic_le_shift (Z.pos m2) (Z.pos m1) (k + e2) e1 c
                      (- e2 - e') Hc2 Hc1 ltac:(lia) ltac:(unfold s in Hs; lia)
                      Hle) as Hle'.
        replace (k + e2 + (- e2 - e')) with (k - e') in Hle' by lia.
        replace (e1 + (- e2 - e')) with s in Hle' by (unfold s; lia).
        exact Hle'.
      - assert (e' <= D - prec) as HD.
        { unfold e', fexp, SpecFloat.emin, prec, emax in *. lia. }
        unfold prec in HD.
        exists (D - 1 - e'). split; [lia|]. split; [lia|].
        rewrite Hq. apply Z.div_le_lower_bound; [lia|].
        apply Z.le_trans with (2 ^ digits m2 * 2 ^ (D - 1 - e')).
        { apply Z.mul_le_mono_nonneg_r; [apply Z.pow_nonneg|]; lia. }
        apply Z.le_trans with (2 ^ (digits m1 - 1) * 2 ^ s).
        { rewrite <- !Z.pow_add_r by lia.
          apply Z.pow_le_mono_r; [lia|]. unfold D, s. lia. }
        apply Z.mul_le_mono_nonneg_r; [apply Z.pow_nonneg|]; lia. }
    pose proof (pow2_pos j Hj).
    destruct q as [|mq|mq]; [lia| |lia].
    exists mq. split; [reflexivity|]. apply digits_ge in Hjq. lia. }
  destruct (binary_round_aux_magnitude false mq e'
              (new_location (Z.pos m2) r) ltac:(lia))
    as [->|(m & e & -> & Hm)]; [by left|right].
  exists m, e. split; [reflexivity|lia].
Qed.

Lemma digits_shift (mm a : positive) (j : Z) :
  0 <= j -> Z.pos mm = Z.pos a * 2 ^ j -> digits mm = digits a + j.
Proof.
  intros Hj Hmm. apply digits_unique. rewrite Hmm.
  pose proof (digits_bounds a) as [Hl Hu]. pose proof (digits_pos a).
  pose proof (pow2_pos j Hj).
  replace (digits a + j - 1) with (digits a - 1 + j) by lia.
  rewrite !Z.pow_add_r by lia. split.
  - apply Z.mul_le_mono_nonneg_r; lia.
  - apply Z.mul_lt_mono_pos_r; lia.
Qed.

Lemma iter_xO (a d : positive) :
  Z.pos (Pos.iter xO a d) = Z.pos a * 2 ^ Z.pos d.
Proof.
  induction d as [|d IH] using Pos.peano_ind.
  - cbn [Pos.iter]. lia.
  - rewrite Pos.iter_succ, Pos2Z.inj_xO, IH, Pos2Z.inj_succ.
    unfold Z.succ. rewrite Z.pow_add_r by lia. lia.
Qed.

(** Bounded mantissas have at most [prec] digits and exponents from
    [emin] on. *)
Lemma bounded_digits (m : positive) (e : Z) :
  bounded prec emax m e = true ->
  e = fexp prec emax (digits m + e) /\ digits m <= prec
  /\ SpecFloat.emin prec emax <= e.
Proof.
  unfold bounded, canonical_mantissa. fold (digits m).
  intros [H _]%andb_prop. apply Z.eqb_eq in H.
  unfold fexp, SpecFloat.emin, prec, emax in *. lia.
Qed.

Lemma shr_1_even (q : positive) :
  shr_1 {| shr_m := Z.pos q~0; shr_r := false; shr_s := false |}
  = {| shr_m := Z.pos q; shr_r := false; shr_s := false |}.
Proof. reflexivity. Qed.

Lemma shr_iter_exact (p : positive) : forall a : positive,
  SpecFloat.iter_pos shr_1 p
    {| shr_m := Z.pos a * 2 ^ Z.pos p; shr_r := false; shr_s := false |}
  = {| shr_m := Z.pos a; shr_r := false; shr_s := false |}.
Proof.
  assert (forall a : positive,
            shr_1 {| shr_m := Z.pos a * 2; shr_r := false; shr_s := false |}
            = {| shr_m := Z.pos a; shr_r := false; shr_s := false |}) as H1.
  { intros a. replace (Z.pos a * 2) with (Z.pos a~0) by lia.
    apply shr_1_even. }
  assert (forall (a x : positive), exists b : positive,
            Z.pos a * 2 ^ Z.pos x = Z.pos b) as Hpos.
  { intros a x. pose proof (pow2_pos (Z.pos x) ltac:(lia)).
    destruct (Z.pos a * 2 ^ Z.pos x) as [|b|b] eqn:Hb; [lia| |lia].
    by exists b. }
  induction p as [p IH|p IH|]; intros a; cbn [SpecFloat.iter_pos].
  - destruct (Hpos a p) as [b Hb]. destruct (Hpos b p) as [b' Hb'].
    replace (Z.pos a * 2 ^ Z.pos p~1) with (Z.pos b' * 2).
    2:{ rewrite <- Hb', <- Hb.
        replace (Z.pos p~1) with (Z.pos p + Z.pos p + 1) by lia.
        rewrite !Z.pow_add_r by lia. lia. }
    rewrite H1, <- Hb', IH, <- Hb, IH. reflexivity.
  - destruct (Hpos a p) as [b Hb].
    replace (Z.pos a * 2 ^ Z.pos p~0) with (Z.pos b * 2 ^ Z.pos p).
    2:{ rewrite <- Hb. replace (Z.pos p~0) with (Z.pos p + Z.pos p) by lia.
        rewrite !Z.pow_add_r by lia. lia. }
    rewrite IH, <- Hb, IH. reflexivity.
  - rewrite Z.pow_1_r. apply H1.
Qed.

Lemma shr_fexp_none (mm : positive) (e : Z) :
  fexp prec emax (digits mm + e) - e <= 0 ->
  shr_fexp prec emax (Z.pos mm) e loc_Exact
  = ({| shr_m := Z.pos mm; shr_r := false; shr_s := false |}, e).
Proof.
  intros Hn. unfold shr_fexp, shr. cbn [Zdigits2 shr_record_of_loc].
  fold (digits mm).
  destruct (fexp prec emax (digits mm + e) - e) as [|p|p]; [done|lia|done].
Qed.

Lemma shr_fexp_exact (mm b p : positive) (e : Z) :
  Z.pos mm = Z.pos b * 2 ^ Z.pos p ->
  fexp prec emax (digits mm + e) - e = Z.pos p ->
  shr_fexp prec emax (Z.pos mm) e loc_Exact
  = ({| shr_m := Z.pos b; shr_r := false; shr_s := false |}, e + Z.pos p).
Proof.
  intros Hmb Hn. unfold shr_fexp, shr. cbn [Zdigits2 shr_record_of_loc].
  fold (digits mm). rewrite Hn, Hmb, shr_iter_exact. reflexivity.
Qed.

(** A mantissa with enough low zero bits is rounded without error. *)
Lemma binary_round_aux_exact (sx : bool) (mm a : positive) (e j : Z) :
  0 <= j -> Z.pos mm = Z.pos a * 2 ^ j ->
  fexp prec emax (digits mm + e) - e <= j ->
  exists m' e',
    (binary_round_aux prec emax sx (Z.pos mm) e loc_Exact = S754_infinity sx
     \/ binary_round_aux prec emax sx (Z.pos mm) e loc_Exact
        = S754_finite sx m' e')
    /\ e <= e' <= e + j
    /\ Z.pos m' * 2 ^ (e' - e) = Z.pos mm.
Proof.
  intros Hj Hmm Hn. unfold binary_round_aux.
  destruct (Z.le_gt_cases (fexp prec emax (digits mm + e) - e) 0) as [H0|H0].
  - rewrite shr_fexp_none by done.
    cbn [shr_m loc_of_shr_record round_nearest_even].
    rewrite shr_fexp_none by done. cbn [shr_m]. exists mm, e.
    split; [destruct (e <=? emax - prec); auto|].
    split; [lia|]. rewrite Z.sub_diag. lia.
  - destruct (fexp prec emax (digits mm + e) - e) as [|p|p] eqn:Hp;
      [lia| |lia].
    pose proof (pow2_pos (j - Z.pos p) ltac:(lia)).
    destruct (Z.pos a * 2 ^ (j - Z.pos p)) as [|b|b] eqn:Hb; [lia| |lia].
    assert (Z.pos mm = Z.pos b * 2 ^ Z.pos p) as Hmb.
    { rewrite Hmm, <- Hb, <- Z.mul_assoc, <- Z.pow_add_r by lia.
      do 2 f_equal. lia. }
    rewrite (shr_fexp_exact mm b p e Hmb Hp).
    cbn [shr_m loc_of_shr_record round_nearest_even].
    pose proof (digits_shift mm b (Z.pos p) ltac:(lia) Hmb) as Hd.
    rewrite shr_fexp_none.
    2:{ replace (digits b + (e + Z.pos p)) with (digits mm + e) by lia. lia. }
    cbn [shr_m]. exists b, (e + Z.pos p).
    split; [destruct (e + Z.pos p <=? emax - prec); auto|].
    split; [lia|]. replace (e + Z.pos p - e) with (Z.pos p) by lia. lia.
Qed.

(** The order of two positive doubles is the order of their values. *)
Lemma SFcompare_lt (m m1 : positive) (e e1 c : Z) :
  bounded prec emax m e = true -> bounded prec emax m1 e1 = true ->
  SFcompare (S754_finite false m e) (S754_finite false m1 e1) = Some Lt ->
  0 <= e + c -> 0 <= e1 + c ->
  Z.pos m * 2 ^ (e + c) < Z.pos m1 * 2 ^ (e1 + c).
Proof.
  intros (He & Hd & Hmin)%bounded_digits (He1 & Hd1 & Hmin1)%bounded_digits
    Hcmp Hc Hc1.
  cbn [SFcompare] in Hcmp.
  destruct (Z.compare_spec e e1) as [Heq|Hlt|Hgt]; [| |discriminate Hcmp].
  - subst e1. change (Pos.compare_cont Eq m m1) with (m ?= m1)%positive in Hcmp.
    injection Hcmp as Hcmp.
    apply Z.mul_lt_mono_pos_r; [apply pow2_pos; lia|]. exact Hcmp.
  - assert (digits m1 = prec) as Hd1'.
    { unfold fexp, SpecFloat.emin, prec, emax in *. lia. }
    pose proof (digits_bounds m) as [_ Hu].
    pose proof (digits_bounds m1) as [Hl1 _].
    pose proof (digits_pos m).
    pose proof (pow2_pos (e + c) Hc). pose proof (pow2_pos (e1 + c) Hc1).
    apply Z.lt_le_trans with (2 ^ digits m * 2 ^ (e + c)).
    { apply Z.mul_lt_mono_pos_r; lia. }
    apply Z.le_trans with (2 ^ (digits m1 - 1) * 2 ^ (e1 + c)).
    { rewrite <- !Z.pow_add_r by lia. apply Z.pow_le_mono_r; lia. }
    apply Z.mul_le_mono_nonneg_r; lia.
Qed.

Lemma Prim2SF_two :
  Prim2SF (float_of_Z 2) = S754_finite false 4503599627370496 (-51).
Proof. vm_compute. reflexivity. Qed.

Lemma Prim2SF_zero : Prim2SF (float_of_Z 0) = S754_zero false.
Proof. vm_compute. reflexivity. Qed.

Lemma Prim2SF_bounded (x : float) (s : bool) (m : positive) (e : Z) :
  Prim2SF x = S754_finite s m e -> bounded prec emax m e = true.
Proof. intros H. pose proof (Prim2SF_valid x) as Hv. by rewrite H in Hv. Qed.

(** Doubling a positive double is exact, short of overflow. *)
Lemma double_exact (f : float) (m2 : positive) (e2 : Z) :
  Prim2SF f = S754_finite false m2 e2 ->
  Prim2SF (float_of_Z 2 * f)%float = S754_infinity false
  \/ exists m' e',
       Prim2SF (float_of_Z 2 * f)%float = S754_finite false m' e'
       /\ e2 - 51 <= e'
       /\ Z.pos m' * 2 ^ (e' - (e2 - 51)) = Z.pos m2 * 2 ^ 52.
Proof.
  intros Hf. pose proof (Prim2SF_bounded _ _ _ _ Hf) as Hb.
  apply bounded_digits in Hb as (He & Hd & Hmin).
  rewrite mul_spec, Prim2SF_two, Hf. unfold SF64mul, SFmul. cbn [xorb].
  assert (Z.pos (4503599627370496 * m2) = Z.pos m2 * 2 ^ 52) as Hmm.
  { change (2 ^ 52) with 4503599627370496. lia. }
  pose proof (digits_shift _ _ 52 ltac:(lia) Hmm) as Hdd.
  destruct (binary_round_aux_exact false (4503599627370496 * m2) m2
              (-51 + e2) 52 ltac:(lia) Hmm) as (m' & e' & Hr & Hrange & Hval).
  { rewrite Hdd. unfold fexp, SpecFloat.emin, prec, emax in *. lia. }
  destruct Hr as [Hr|Hr]; [by left|right].
  exists m', e'. split; [exact Hr|]. split; [lia|].
  replace (e' - (e2 - 51)) with (e' - (-51 + e2)) by lia. lia.
Qed.

Lemma positive_double (f : float) :
  (float_of_Z 0 <? f)%float = true ->
  Prim2SF f = S754_infinity false
  \/ exists m e, Prim2SF f = S754_finite false m e.
Proof.
  rewrite ltb_spec, Prim2SF_zero. unfold SFltb.
  destruct (Prim2SF f) as [s|s| |s m e]; cbn [SFcompare];
    try discriminate; destruct s; try discriminate; eauto.
Qed.

Lemma SFltb_Lt (x y : spec_float) :
  SFltb x y = true -> SFcompare x y = Some Lt.
Proof.
  unfold SFltb. destruct (SFcompare x y) as [[]|]; congruence.
Qed.

(** [2 * f < fs] on positive doubles: [fs] is an infinity, or its value is
    above twice that of [f]. *)
Lemma doubled_below (fs f : float) (m2 : positive) (e2 : Z) :
  Prim2SF f = S754_finite false m2 e2 ->
  (float_of_Z 2 * f <? fs)%float = true ->
  Prim2SF fs = S754_infinity false
  \/ exists m1 e1 c,
       Prim2SF fs = S754_finite false m1 e1
       /\ 0 <= e1 + c /\ 0 <= 1 + e2 + c
       /\ Z.pos m2 * 2 ^ (1 + e2 + c) <= Z.pos m1 * 2 ^ (e1 + c).
Proof.
  intros Hf Hlt. rewrite ltb_spec in Hlt. apply SFltb_Lt in Hlt.
  destruct (double_exact f m2 e2 Hf) as [Hinf|(m' & e' & Hd & Hle & Hval)].
  - rewrite Hinf in Hlt.
    destruct (Prim2SF fs) as [s|s| |s m1 e1]; cbn [SFcompare] in Hlt;
      try discriminate Hlt; destruct s; discriminate Hlt.
  - pose proof (Prim2SF_bounded _ _ _ _ Hd) as Hb'. rewrite Hd in Hlt.
    destruct (Prim2SF fs) as [s|s| |s m1 e1] eqn:Hfs.
    + discriminate Hlt.
    + destruct s; [discriminate Hlt|by left].
    + discriminate Hlt.
    + destruct s; [discriminate Hlt|]. right.
      pose proof (Prim2SF_bounded _ _ _ _ Hfs) as Hb1.
      set (c := Z.max (51 - e2) (- e1)).
      pose proof (SFcompare_lt m' m1 e' e1 c Hb' Hb1 Hlt ltac:(lia) ltac:(lia))
        as Hval'.
      exists m1, e1, c. split; [reflexivity|]. split; [lia|]. split; [lia|].
      replace (Z.pos m2 * 2 ^ (1 + e2 + c)) with (Z.pos m' * 2 ^ (e' + c));
        [lia|].
      replace (e' + c) with (e' - (e2 - 51) + (e2 - 51 + c)) by lia.
      rewrite Z.pow_add_r by lia. rewrite Z.mul_assoc, Hval.
      rewrite <- Z.mul_assoc, <- Z.pow_add_r by lia. do 2 f_equal. lia.
Qed.

(** The quotient [fs / f / 2] of the constructor is an infinity or a double
    of value 1 at least. *)
Lemma half_quotient_lower (fs f : float) :
  (float_of_Z 0 <? f)%float = true ->
  (float_of_Z 2 * f <? fs)%float = true ->
  Prim2SF (fs / f / float_of_Z 2)%float = S754_infinity false
  \/ exists m e,
       Prim2SF (fs / f / float_of_Z 2)%float = S754_finite false m e
       /\ 1 <= digits m + e.
Proof.
  intros Hpos Hlt.
  rewrite (div_spec (fs / f)), Prim2SF_two, div_spec.
  destruct (positive_double f Hpos) as [Hinf|(m2 & e2 & Hf)].
  { exfalso. rewrite ltb_spec, mul_spec, Prim2SF_two, Hinf in Hlt.
    apply SFltb_Lt in Hlt. cbn [SF64mul SFmul xorb] in Hlt.
    destruct (Prim2SF fs) as [s|s| |s m1 e1]; cbn [SFcompare] in Hlt;
      try discriminate Hlt; destruct s; discriminate Hlt. }
  assert (SF64div (Prim2SF fs) (Prim2SF f) = S754_infinity false
          \/ exists m e,
               SF64div (Prim2SF fs) (Prim2SF f) = S754_finite false m e
               /\ 2 <= digits m + e) as Hq.
  { destruct (doubled_below fs f m2 e2 Hf Hlt)
      as [Hfs|(m1 & e1 & c & Hfs & Hc1 & Hc2 & Hle)];
      rewrite Hfs, Hf; [by left|].
    apply (SFdiv_lower m1 m2 e1 e2 1 c); [|exact Hc1|exact Hc2|exact Hle].
    unfold SpecFloat.emin, prec, emax. lia. }
  destruct Hq as [->|(m & e & -> & Hm)]; [by left|].
  set (c := Z.max 51 (- e)).
  apply (SFdiv_lower m 4503599627370496 e (-51) 0 c).
  - unfold SpecFloat.emin, prec, emax. lia.
  - lia.
  - lia.
  - pose proof (digits_bounds m) as [Hl _]. pose proof (digits_pos m).
    change (Z.pos 4503599627370496) with (2 ^ 52).
    rewrite <- Z.pow_add_r by lia.
    apply Z.le_trans with (2 ^ (digits m - 1) * 2 ^ (e + c)).
    + rewrite <- Z.pow_add_r by lia. apply Z.pow_le_mono_r; lia.
    + apply Z.mul_le_mono_nonneg_r; [apply Z.pow_nonneg|]; lia.
Qed.

Lemma trunc_lower (m : positive) (e : Z) :
  1 <= digits m + e -> 1 <= Z.shiftl (Z.pos m) e.
Proof.
  intros HM. pose proof (digits_bounds m) as [Hl _]. pose proof (digits_pos m).
  destruct (Z.le_gt_cases 0 e) as [He|He].
  - rewrite Z.shiftl_mul_pow2 by done. pose proof (pow2_pos e He). nia.
  - rewrite <- (Z.opp_involutive e), Z.shiftl_opp_r, Z.shiftr_div_pow2 by lia.
    apply Z.div_le_lower_bound; [apply pow2_pos; lia|].
    rewrite Z.mul_1_r. apply Z.le_trans with (2 ^ (digits m - 1)); [|done].
    apply Z.pow_le_mono_r; lia.
Qed.

Lemma shl_align_magnitude (m mz : positive) (e e' ez : Z) :
  shl_align m e e' = (mz, ez) -> digits mz + ez = digits m + e.
Proof.
  unfold shl_align. destruct (e' - e) as [|d|d] eqn:Hd; intros [= <- <-];
    [done|done|].
  rewrite (digits_shift (Pos.iter xO m d) m (Z.pos d)); [lia|lia|].
  apply iter_xO.
Qed.

(** The double of a positive integer below [2^63] is not below 1. *)
Lemma float_of_Z_lower (n : Z) :
  1 <= n < 2 ^ 63 ->
  Prim2SF (float_of_Z n) = S754_infinity false
  \/ exists m e,
       Prim2SF (float_of_Z n) = S754_finite false m e /\ 1 <= digits m + e.
Proof.
  intros Hn. destruct n as [|p|p]; [lia| |lia]. cbn [float_of_Z].
  rewrite of_uint63_spec, Uint63.of_Z_spec, Z.mod_small.
  2:{ change wB with (2 ^ 63). lia. }
  unfold binary_normalize, binary_round.
  destruct (shl_align p 0 _) as [mz ez] eqn:Hal.
  apply shl_align_magnitude in Hal. fold (digits p) in Hal.
  pose proof (digits_pos p).
  destruct (binary_round_aux_magnitude false mz ez loc_Exact)
    as [->|(m & e & -> & Hm)]; [|by left|right].
  { unfold SpecFloat.emin, prec, emax. lia. }
  exists m, e. split; [reflexivity|lia].
Qed.

(** [round] and the conversion to an integer keep a double that is not
    below 1 from falling below 1. *)
Lemma round_trunc_lower (x : float) (m : positive) (e r : Z) :
  Prim2SF x = S754_finite false m e -> 1 <= digits m + e ->
  float_trunc (float_round x) = Some r -> 1 <= r.
Proof.
  intros Hx HM. unfold float_round. rewrite Hx.
  destruct (Z.ltb_spec e 0) as [He|He].
  - pose proof (Prim2SF_bounded _ _ _ _ Hx) as (_ & Hd & _)%bounded_digits.
    pose proof (digits_bounds m) as [Hl Hu]. pose proof (digits_pos m).
    pose proof (pow2_pos (- e - 1) ltac:(lia)) as Hh.
    assert (2 ^ (- e) = 2 * 2 ^ (- e - 1)) as Hpw.
    { replace (- e) with (1 + (- e - 1)) at 1 by lia.
      rewrite Z.pow_add_r by lia. reflexivity. }
    assert (2 ^ (- e) <= Z.pos m) as Hm.
    { apply Z.le_trans with (2 ^ (digits m - 1)); [|done].
      apply Z.pow_le_mono_r; lia. }
    assert (Z.pos m < 2 ^ 53) as Hm53.
    { apply Z.lt_le_trans with (2 ^ digits m); [done|].
      apply Z.pow_le_mono_r; unfold prec in Hd; lia. }
    assert (1 <= (Z.pos m + 2 ^ (- e - 1)) / 2 ^ (- e) < 2 ^ 63) as Hn.
    { split.
      - apply Z.div_le_lower_bound; lia.
      - apply Z.div_lt_upper_bound; [lia|].
        change (2 ^ 63) with 9223372036854775808.
        change (2 ^ 53) with 9007199254740992 in Hm53. nia. }
    destruct (float_of_Z_lower _ Hn) as [Hr|(m' & e' & Hr & HM')];
      unfold float_trunc; rewrite Hr; [discriminate|].
    intros [= <-]. by apply trunc_lower.
  - unfold float_trunc. rewrite Hx. intros [= <-]. by apply trunc_lower.
Qed.

Lemma round_trunc_infinity (x : float) (s : bool) :
  Prim2SF x = S754_infinity s -> float_trunc (float_round x) = None.
Proof.
  intros Hx. unfold float_round. rewrite Hx. unfold float_trunc.
  by rewrite Hx.
Qed.

(** In binary64, [f > 0] and [fs > 2 f] give a half period of 1 at
    least. *)
Lemma half_period_binary64 fsin fcos fpow pi (fs f : float) (g : SquareWave) :
  PrimFloat.ltb (dint 0) f = true ->
  PrimFloat.ltb (dint 2 * f)%D fs = true ->
  SquareWave_new (libm:=Libm_binary64 fsin fcos fpow pi) fs f = Some g ->
  1 <= switch_samples g.
Proof.
  intros Hpos Hlt Hnew. unfold SquareWave_new in Hnew.
  cbn [dtrunc dround ddiv dint Real64_float Libm_binary64] in Hnew.
  destruct (float_trunc _) as [r|] eqn:Hr; [|discriminate Hnew].
  cbn [mbind option_bind] in Hnew.
  destruct (to_size_t r) as [s|] eqn:Hs; [|discriminate Hnew].
  injection Hnew as <-. apply to_size_t_Some in Hs as [-> _].
  cbn [switch_samples].
  destruct (half_quotient_lower fs f Hpos Hlt) as [Hq|(m & e & Hq & HM)].
  - rewrite (round_trunc_infinity _ _ Hq) in Hr. discriminate Hr.
  - exact (round_trunc_lower _ m e r Hq HM Hr).
Qed.

Lemma main_generator_binary64 fsin fcos fpow pi :
  SquareWave_new (D:=float) (libm:=Libm_binary64 fsin fcos fpow pi)
    SAMPLE_RATE (dint 50)
  = Some (mkSquareWave 480 false 0).
Proof. vm_compute. reflexivity. Qed.

Lemma half_differs_binary64 : (ddec 5 10 : float) <> (- ddec 5 10)%D.
Proof.
  intros H. apply (f_equal (fun x => PrimFloat.ltb x 0)) in H.
  vm_compute in H. discriminate.
Qed.

(** What the constructor stores is the integer it finds for
    [round(fs/f/2)], and it fits [size_t]. *)
Lemma SquareWave_new_range {D : Type} {num : Real64 D} {libm : Libm D}
    (fs f : D) (g : SquareWave) :
  SquareWave_new fs f = Some g ->
  dtrunc (dround (fs / f / dint 2)%D) = Some (switch_samples g)
  /\ 0 <= switch_samples g < SIZE_MOD.
Proof.
  intros Hnew. unfold SquareWave_new in Hnew.
  destruct (dtrunc _) as [r|]; [|discriminate Hnew].
  cbn [mbind option_bind] in Hnew.
  destruct (to_size_t r) as [s|] eqn:Hs; [|discriminate Hnew].
  injection Hnew as <-. apply to_size_t_Some in Hs as [-> Hr].
  cbn [switch_samples]. split; [reflexivity|exact Hr].
Qed.


(** Where the two arithmetics part: at the double [f_tie] the binary64
    quotient is exactly [5.5] and [round] gives a half period of 6, while
    the exact quotient lies below [5.5] and rounds to 5; the theorem above
    follows the constructor in either case. *)
Example half_period_at_a_tie :
  (forall fsin fcos fpow pi,
     SquareWave_new (D:=float) (libm:=Libm_binary64 fsin fcos fpow pi)
       SAMPLE_RATE f_tie
     = Some (mkSquareWave 6 false 0))
  /\ SquareWave_new (D:=R) SAMPLE_RATE f_tie_real
     = Some (mkSquareWave 5 false 0).
Proof.
  split; [intros; vm_compute; reflexivity|].
  rewrite SquareWave_new_real.
  assert (c_round (SAMPLE_RATE / f_tie_real / 2) = 5) as ->; [|reflexivity].
  unfold c_round, SAMPLE_RATE, f_tie_real. cbn [dint Real64_R].
  assert (9 / 2 <= 48000 / (4797868921204364 / 1099511627776) / 2 < 11 / 2)%R
    as Hx.
  { replace (48000 / (4797868921204364 / 1099511627776) / 2)%R
      with (48000 * 1099511627776 / (4797868921204364 * 2))%R by (field; lra).
    split.
    - apply (Rmult_le_reg_r (4797868921204364 * 2)); [lra|].
      replace (48000 * 1099511627776 / (4797868921204364 * 2)
               * (4797868921204364 * 2))%R
        with (48000 * 1099511627776)%R by (field; lra).
      lra.
    - apply (Rmult_lt_reg_r (4797868921204364 * 2)); [lra|].
      replace (48000 * 1099511627776 / (4797868921204364 * 2)
               * (4797868921204364 * 2))%R
        with (48000 * 1099511627776)%R by (field; lra).
      lra. }
  destruct (Rle_dec 0 _) as [_|Hneg]; [|lra].
  apply Zfloor_eq. lra.
Qed.

(** The binary64 conditions at work: 50 Hz and [f_tie] lie below half the
    sample rate of 48000 Hz, 24000 Hz does not. *)
Example binary64_conditions_hold :
  PrimFloat.ltb (dint 0) (dint 50) = true
  /\ PrimFloat.ltb (dint 2 * dint 50)%D SAMPLE_RATE = true
  /\ PrimFloat.ltb (dint 0) f_tie = true
  /\ PrimFloat.ltb (dint 2 * f_tie)%D SAMPLE_RATE = true
  /\ PrimFloat.ltb (dint 2 * dint 24000)%D SAMPLE_RATE = false.
Proof. repeat split; vm_compute; reflexivity. Qed.


End GeneratorClaims.


(** ** Unity gain *)

Section UnityGain.
Local Open Scope R_scope.

Lemma process_sample_identity bq x :
  passes_through bq ->
  (process_sample bq x).1 = x /\ passes_through (process_sample bq x).2.
Proof.
  intros (H0 & H1 & H2 & Hx1 & Hx2). unfold process_sample, passes_through.
  simpl. rewrite H0, H1, H2, Hx1, Hx2.
  assert (1 * x + a1 bq * y1 bq + a2 bq * y2 bq - a1 bq * y1 bq
          - a2 bq * y2 bq = x) as -> by ring.
  done.
Qed.

Lemma filter_seq_identity xs bq :
  passes_through bq -> (filter_seq bq xs).1 = xs.
Proof.
  revert bq. induction xs as [|x xs IH]; intros bq Hbq; [done|].
  cbn [filter_seq]. destruct (process_sample_identity bq x Hbq) as [Hy Hbq1].
  destruct (process_sample bq x) as [y bq1]. cbn [fst snd] in *.
  specialize (IH bq1 Hbq1). destruct (filter_seq bq1 xs). simpl in *.
  by rewrite Hy, IH.
Qed.

Lemma unity_A : Rpower 10 (0 / 40) = 1.
Proof. replace (0 / 40) with 0 by lra. apply Rpower_O. lra. Qed.

Lemma peak_eq_unity fs f0 q :
  1 + sin (2 * PI * f0 / fs) / (2 * q) <> 0 ->
  passes_through (peak_eq fs f0 q 0).
Proof.
  intros Ha0. unfold passes_through, peak_eq. simpl. rewrite unity_A.
  set (alpha := sin (2 * PI * f0 / fs) / (2 * q)) in *.
  repeat split.
  - field. lra.
  - f_equal. lra.
Qed.

(** Below the Nyquist frequency and with a positive [q] the divisor [a0]
    is at least 1. *)
Lemma audio_band_a0 fs f0 q :
  0 < q -> 0 <= f0 -> 2 * f0 <= fs -> 0 < fs ->
  1 + sin (2 * PI * f0 / fs) / (2 * q) <> 0.
Proof.
  intros Hq Hf0 Hny Hfs. pose proof PI_RGT_0 as Hpi.
  assert (0 <= f0 / fs <= / 2) as [Ht0 Ht1].
  { split.
    - apply Rle_mult_inv_pos; lra.
    - apply (Rmult_le_reg_r fs); [lra|].
      replace (f0 / fs * fs) with f0 by (field; lra). lra. }
  replace (2 * PI * f0 / fs) with (2 * PI * (f0 / fs)) by (field; lra).
  assert (0 <= sin (2 * PI * (f0 / fs))) as Hsin
    by (apply sin_ge_0; nra).
  assert (0 <= sin (2 * PI * (f0 / fs)) / (2 * q))
    by (apply Rle_mult_inv_pos; lra).
  lra.
Qed.

End UnityGain.

(** C8, as stated, fails where [a0] vanishes: at [fs = 4], [f0 = 3],
    [q = 0.5] the angle is [3*pi/2], [alpha = -1] and [a0 = 0], so [b0] is
    [0/0] and the filter does not return the input sample [1]. *)
Lemma unity_gain_broken :
  exists (out : list R) bq',
    iir [dint 1 : R] (peak_eq (dint 4) (dint 3) (ddec 5 10) (dint 0))
    = Some (out, bq')
    /\ out <> [dint 1 : R].
Proof.
  rewrite iir_filter_seq by done. eexists _, _. split; [reflexivity|].
  simpl. rewrite unity_A.
  replace (2 * PI * 3 / 4)%R with (3 * (PI / 2))%R by lra.
  rewrite sin_3PI2.
  replace (-1 / (2 * (5 / 10)))%R with (-1)%R by lra.
  replace (1 + -1 * 1)%R with 0%R by lra.
  intros [= H]. unfold Rdiv in H. rewrite Rmult_0_l in H. lra.
Qed.

(** C8, as the code has it.  In exact real arithmetic, when the divisor
    [a0 = 1 + sin(omega)/(2q)] is not zero, [peak_eq] at [db_gain = 0]
    gives [b0 = 1], [b1 = a1] and [b2 = a2], and from its zero state [iir]
    leaves every sample of the buffer as it was. *)
Theorem unity_gain_identity (fs f0 q : R) (input : list R) :
  (1 + sin (2 * PI * f0 / fs) / (2 * q) <> 0)%R ->
  fits_uint (length input) ->
  let bq := peak_eq fs f0 q (dint 0) in
  (b0 bq = 1%R /\ b1 bq = a1 bq /\ b2 bq = a2 bq)
  /\ exists bq', iir input bq = Some (input, bq').
Proof.
  intros Ha0 Hfit bq. pose proof (peak_eq_unity fs f0 q Ha0) as Hbq.
  fold bq in Hbq. split; [by destruct Hbq as (? & ? & ? & _)|].
  rewrite iir_filter_seq by done.
  pose proof (filter_seq_identity input bq Hbq) as Hid.
  destruct (filter_seq bq input) as [out bq']. simpl in Hid. subst out.
  by exists bq'.
Qed.

(** ** The sweep *)

Section Sweep.

Lemma push_fold {D : Type} {num : Real64 D} {libm : Libm D} n i
    (biquads : list (Biquad D)) gain_positive :
  exists biquads' gain_positive',
    fold_range push_body i n (biquads, gain_positive)
    = Some (biquads', gain_positive')
    /\ length biquads' = (length biquads + n)%nat.
Proof.
  revert i biquads gain_positive.
  induction n as [|n IH]; intros i biquads gain_positive.
  - exists biquads, gain_positive. split; [done | lia].
  - cbn [fold_range push_body mbind option_bind].
    destruct (IH (i + 1)
                (biquads ++ [peak_eq SAMPLE_RATE (dint 50) (ddec 3 10)
                               (if gain_positive then dint 2 else (- dint 2)%D)])
                (negb gain_positive)) as (bs & g & Hrun & Hlen).
    exists bs, g. split; [exact Hrun|]. rewrite Hlen, length_app. simpl. lia.
Qed.

Lemma trial_real l sqw (biquads : list (Biquad R)) reports :
  0 <= l <= 19 -> Z.of_nat (length biquads) = FILTER_COUNT ->
  exists sqw' biquads' w,
    trial l (sqw, biquads, reports)
    = Some (sqw', biquads',
            reports ++ [mkTrialReport (2 ^ l) (SAMPLE_COUNT / 2 ^ l) w])
    /\ Z.of_nat (length w) = SAMPLE_COUNT / 2 ^ l
    /\ Z.of_nat (length biquads') = FILTER_COUNT.
Proof.
  intros Hl Hbq. unfold trial.
  assert (dtrunc (dpow (dint 2) (dint l : R)) = Some (2 ^ l)) as ->.
  { simpl. by rewrite Rpower_2_IZR, c_trunc_IZR by lia. }
  cbn [mbind option_bind].
  assert (0 < 2 ^ l <= 2 ^ 19) as Hpow.
  { split; [apply Z.pow_pos_nonneg; lia | apply Z.pow_le_mono_r; lia]. }
  assert (to_size_t (2 ^ l) = Some (2 ^ l)) as ->.
  { apply to_size_t_Some. unfold SIZE_MOD. split; [done|]. lia. }
  cbn [mbind option_bind].
  destruct (Z.eqb_spec (2 ^ l) 0) as [?|_]; [lia|]. cbn [mbind option_bind].
  assert (0 <= SAMPLE_COUNT / 2 ^ l <= SAMPLE_COUNT) as Hcount.
  { unfold SAMPLE_COUNT. split; [apply Z.div_pos; lia|].
    apply Z.div_le_upper_bound; nia. }
  rewrite (to_uint_small (SAMPLE_COUNT / 2 ^ l))
    by (unfold SAMPLE_COUNT, UINT_MOD in *; lia).
  set (st := mkTrialState _ _ _ _).
  assert (to_uint FILTER_COUNT = Z.of_nat (length (t_biquads st))) as ->.
  { unfold st, reset_biquads. cbn [t_biquads]. by rewrite length_map, Hbq. }
  destruct (run_buffers_pipeline (SAMPLE_COUNT / 2 ^ l) st)
    as (buf & -> & _).
  { unfold SAMPLE_COUNT, UINT_MOD in *. lia. }
  { unfold st, fits_uint, UINT_MOD. cbn [t_buf].
    rewrite length_replicate, Z2Nat.id; lia. }
  { unfold st, fits_uint, UINT_MOD, reset_biquads. cbn [t_biquads].
    rewrite length_map, Hbq. reflexivity. }
  pose proof (pipeline_n_length (Z.to_nat (SAMPLE_COUNT / 2 ^ l))
                (length (t_buf st)) (t_sqw st) (t_biquads st) (written st))
    as [Hw Hb].
  destruct (pipeline_n _ _ _ _ _) as [[outs s'] bs'].
  cbn [mbind option_bind t_sqw t_biquads written fst snd] in *.
  exists s', bs', outs. split; [done|]. split.
  - rewrite Hw. unfold st. cbn [written length]. lia.
  - rewrite Hb. unfold st, reset_biquads. cbn [t_biquads].
    by rewrite length_map.
Qed.

Lemma sweep_fold (n : nat) l sqw (biquads : list (Biquad R)) reports :
  0 <= l -> l + Z.of_nat n <= 20 ->
  Z.of_nat (length biquads) = FILTER_COUNT ->
  Forall report_consistent reports ->
  exists sqw' biquads' reports',
    fold_range trial l n (sqw, biquads, reports)
    = Some (sqw', biquads', reports')
    /\ map buffer_len reports'
       = map buffer_len reports ++ map (Z.pow 2) (seqZ l (Z.of_nat n))
    /\ Forall report_consistent reports'.
Proof.
  revert l sqw biquads reports.
  induction n as [|n IH]; intros l sqw biquads reports Hl Hn Hbq Hrep.
  - exists sqw, biquads, reports. simpl. by rewrite app_nil_r.
  - cbn [fold_range].
    destruct (trial_real l sqw biquads reports) as (s1 & b1 & w & -> & Hw & Hb1);
      [lia|done|].
    cbn [mbind option_bind].
    destruct (IH (l + 1) s1 b1
                (reports ++ [mkTrialReport (2 ^ l) (SAMPLE_COUNT / 2 ^ l) w]))
      as (s2 & b2 & reps & -> & Hlens & Hcons); [lia|lia|done| |].
    { apply Forall_app. split; [done|]. by apply Forall_singleton. }
    exists s2, b2, reps. split; [done|]. split; [|done].
    rewrite Hlens, map_app, <- app_assoc. f_equal.
    rewrite (seqZ_cons l) by lia. cbn [map app buffer_len].
    do 3 f_equal; lia.
Qed.

(** What [main] reports over the reals. *)
Lemma main_real_reports :
  exists reports,
    main (D:=R) = Some reports
    /\ map buffer_len reports
       = [8; 16; 32; 64; 128; 256; 512; 1024; 2048; 4096]
    /\ Forall report_consistent reports.
Proof.
  unfold main. rewrite main_generator_real. cbn [mbind option_bind].
  rewrite for_uint_fold;
    [|done|done|reflexivity|exact (Nat.lt_succ_diag_r _)].
  destruct (push_fold (D:=R) (Z.to_nat (to_uint FILTER_COUNT - 0)) 0 [] true)
    as (biquads & g & -> & Hlen).
  cbn [mbind option_bind]. unfold sweep.
  rewrite for_uint_fold; [|done|done|reflexivity|vm_compute; lia].
  destruct (sweep_fold (Z.to_nat (BUFFER_LEN_TESTS - 3)) 3
              (mkSquareWave 480 false 0) biquads [])
    as (s & bs & reports & -> & Hlens & Hcons); [done|done| |done|].
  { rewrite Hlen. reflexivity. }
  cbn [mbind option_bind]. by exists reports.
Qed.

End Sweep.

(** C3, as stated, fails: the sweep does not stop at 2048. *)
Lemma sweep_nine_broken :
  ~ exists reports,
      main (D:=R) = Some reports
      /\ map buffer_len reports = [8; 16; 32; 64; 128; 256; 512; 1024; 2048].
Proof.
  intros (reports & Hmain & Hlens).
  destruct main_real_reports as (reports' & Hmain' & Hlens' & _).
  rewrite Hmain in Hmain'. injection Hmain' as <-.
  rewrite Hlens in Hlens'. discriminate.
Qed.

(** C3, as the code has it.  The sweep runs 10 trials, one for each buffer
    length 8, 16, 32, 64, 128, 256, 512, 1024, 2048 and 4096 (the exponent
    runs from 3 to 12, below [BUFFER_LEN_TESTS = 13]); in the trial of
    length [L] the generate-then-filter loop runs [SAMPLE_COUNT / L] times. *)
Theorem sweep_trials :
  exists reports,
    main (D:=R) = Some reports
    /\ length reports = 10%nat
    /\ map buffer_len reports
       = [8; 16; 32; 64; 128; 256; 512; 1024; 2048; 4096]
    /\ map buffer_count reports
       = [65536; 32768; 16384; 8192; 4096; 2048; 1024; 512; 256; 128]
    /\ Forall (fun r => Z.of_nat (length (r_written r))
                        = SAMPLE_COUNT / buffer_len r) reports.
Proof.
  destruct main_real_reports as (reports & Hmain & Hlens & Hcons).
  exists reports. split; [done|].
  assert (length reports = 10%nat) as Hn.
  { rewrite <- (length_map buffer_len), Hlens. reflexivity. }
  split; [done|]. split; [done|]. split.
  - do 11 (destruct reports as [|? reports]; try discriminate Hn).
    repeat match goal with
           | H : Forall _ (_ :: _) |- _ => apply Forall_cons in H as [[? _] H]
           end.
    injection Hlens as ? ? ? ? ? ? ? ? ? ?. cbn [map]. repeat f_equal;
      match goal with
      | H : buffer_count ?r = _, E : buffer_len ?r = _ |- buffer_count ?r = _ =>
          rewrite H, E; reflexivity
      end.
  - eapply Forall_impl; [exact Hcons|]. by intros r [_ ?].
Qed.

(** * The model at work on binary64 data *)

Example iir_run :
  iir demo_buf demo_bq
  = Some ([0.5; 1.5; 2.75]%float,
          (mkBiquad 0.5 0.25 0.125 (-0.5) 0.25 3 2 2.75 1.5)%float).
Proof. vm_compute. reflexivity. Qed.

Example float_round_ties_away :
  map float_round [0.5; 2.5; -2.5; 5.5; 0.25; 480; -1.5]%float
  = [1; 3; -3; 6; 0; 480; -2]%float.
Proof. vm_compute. reflexivity. Qed.

Example fill_buffer_run :
  fill_buffer [0; 0; 0; 0; 0]%float (mkSquareWave 2 false 0)
  = Some ([-0.5; -0.5; 0.5; 0.5; -0.5]%float, mkSquareWave 2 false 1).
Proof. vm_compute. reflexivity. Qed.

Example apply_filters_run :
  fst <$> apply_filters 2 demo_buf [demo_bq; demo_bq2]
  = Some [1; 2.25; 3.8125]%float.
Proof. vm_compute. reflexivity. Qed.

(** Rounding: in binary64 the second sample is absorbed by [b1 * x1] and
    the recurrence returns [0] for it, so the identity of C8 is one of
    exact arithmetic only. *)
Example unity_gain_rounds_in_binary64 :
  fst <$> iir [1; 0x1p-60]%float demo_unity = Some [1; 0]%float.
Proof. vm_compute. reflexivity. Qed.

(** * Instances of the theorems *)

Lemma iir_recurrence_witness :
  fits_uint (length demo_buf)
  /\ iir demo_buf demo_bq = Some (filter_seq demo_bq demo_buf).
Proof.
  assert (fits_uint (length demo_buf)) as Hfit by reflexivity.
  split; [exact Hfit|].
  exact (proj1 (proj2 (iir_recurrence demo_buf demo_bq)) Hfit).
Defined.

Lemma cascade_order_witness :
  fits_uint (length demo_buf) /\ fits_uint (length [demo_bq; demo_bq2])
  /\ apply_filters 2 demo_buf [demo_bq; demo_bq2]
     = Some (cascade_per_sample [demo_bq; demo_bq2] demo_buf).
Proof.
  assert (fits_uint (length demo_buf)) as Hbuf by reflexivity.
  assert (fits_uint (length [demo_bq; demo_bq2])) as Hbq by reflexivity.
  split; [exact Hbuf|]. split; [exact Hbq|].
  exact (proj2 (cascade_order demo_buf [demo_bq; demo_bq2]) Hbuf Hbq).
Defined.

Lemma buffer_split_witness :
  (0 < 2 /\ 4 mod 2 = 0 /\ 4 < UINT_MOD)
  /\ exists one many,
       run_buffers 2 1
         (mkTrialState [0; 0; 0; 0]%float demo_sqw [demo_bq; demo_bq2] [])
       = Some one
       /\ run_buffers 2 (4 / 2)
            (mkTrialState [0; 0]%float demo_sqw [demo_bq; demo_bq2] [])
          = Some many
       /\ same_run one many.
Proof.
  assert (0 < 2) as HL by reflexivity.
  assert (4 mod 2 = 0) as Hdiv by reflexivity.
  assert (4 < UINT_MOD) as HT by reflexivity.
  split; [by repeat split|].
  exact (proj2 (buffer_split 4 2 [0; 0; 0; 0]%float [0; 0]%float demo_sqw
                  [demo_bq; demo_bq2] HL Hdiv eq_refl eq_refl)
           HT eq_refl).
Defined.

Lemma buffer_frame_witness :
  fits_uint (length demo_buf)
  /\ (length [0.5; 1.5; 2.75]%float = length demo_buf
      /\ coefficients
           (mkBiquad 0.5 0.25 0.125 (-0.5) 0.25 3 2 2.75 1.5)%float
         = coefficients demo_bq)
  /\ is_Some (iir demo_buf demo_bq)
  /\ is_Some (fill_buffer demo_buf demo_sqw).
Proof.
  split; [reflexivity|]. split.
  - apply (proj1 (buffer_frame demo_buf) demo_bq). reflexivity.
  - apply (proj2 (proj2 (buffer_frame demo_buf))). reflexivity.
Defined.

Lemma reset_as_fresh_witness :
  SquareWave_new (D:=R) SAMPLE_RATE (dint 50) = Some (mkSquareWave 480 false 0)
  /\ SquareWave_reset (mkSquareWave 480 true 17) = mkSquareWave 480 false 0
  /\ Biquad_reset
       (mkBiquad
          (b0 (peak_eq (D:=R) SAMPLE_RATE (dint 50) (ddec 3 10) (dint 2)))
          (b1 (peak_eq (D:=R) SAMPLE_RATE (dint 50) (ddec 3 10) (dint 2)))
          (b2 (peak_eq (D:=R) SAMPLE_RATE (dint 50) (ddec 3 10) (dint 2)))
          (a1 (peak_eq (D:=R) SAMPLE_RATE (dint 50) (ddec 3 10) (dint 2)))
          (a2 (peak_eq (D:=R) SAMPLE_RATE (dint 50) (ddec 3 10) (dint 2)))
          (dint 3) (dint 2) (dint 1) (dint 7))
     = peak_eq SAMPLE_RATE (dint 50) (ddec 3 10) (dint 2).
Proof.
  split; [apply main_generator_real|]. split.
  - apply (proj1 (proj1 (reset_as_fresh (D:=R)) SAMPLE_RATE (dint 50)
                    (mkSquareWave 480 false 0) (mkSquareWave 480 true 17)
                    main_generator_real eq_refl)).
  - apply (proj1 (proj1 (proj2 (reset_as_fresh (D:=R))) SAMPLE_RATE (dint 50)
                    (ddec 3 10) (dint 2) _ eq_refl)).
Defined.



Lemma unity_gain_identity_witness :
  (1 + sin (2 * PI * 50 / 48000) / (2 * (3 / 10)) <> 0)%R
  /\ fits_uint 3
  /\ exists bq',
       iir [1; -1; / 2]%R (peak_eq 48000%R 50%R (3 / 10)%R 0%R)
       = Some ([1; -1; / 2]%R, bq').
Proof.
  assert (1 + sin (2 * PI * 50 / 48000) / (2 * (3 / 10)) <> 0)%R as Ha0
    by (apply audio_band_a0; lra).
  assert (fits_uint 3) as Hfit by reflexivity.
  split; [exact Ha0|]. split; [exact Hfit|].
  exact (proj2 (unity_gain_identity 48000%R 50%R (3 / 10)%R [1; -1; / 2]%R
                  Ha0 Hfit)).
Defined.

(** * Further properties of the code *)

(** ** Buffers: sizes, contents, chunks *)

Section BufferProperties.
Context {D : Type} {num : Real64 D}.

(** X1. [iir] and [fill_buffer] return exactly on the buffers of fewer than
    2^32 elements: on a longer one the test [i < buf.size()] of the
    [unsigned int] counter never fails, however many steps are taken. *)
Theorem loops_return_within_reach (buf : list D) (bq : Biquad D)
    (sqw : SquareWave) :
  (is_Some (iir buf bq) <-> fits_uint (length buf))
  /\ (is_Some (fill_buffer buf sqw) <-> fits_uint (length buf))
  /\ (forall fuel,
        ~ fits_uint (length buf) ->
        for_uint fuel 0 (buf_size (Biquad D)) iir_body (buf, bq) = None
        /\ for_uint fuel 0 (buf_size SquareWave) fill_body (buf, sqw) = None).
Proof.
  split; [|split].
  - split.
    + intros [r Hr]. by apply iir_returns in Hr as [? _].
    + intros Hfit. by rewrite iir_filter_seq.
  - split.
    + intros [r Hr]. by apply fill_buffer_returns in Hr as [? _].
    + intros Hfit. by rewrite fill_buffer_generate.
  - intros fuel Hbig. unfold fits_uint in Hbig. split.
    + apply (for_uint_no_exit _ _ iir_body_size); [done|].
      unfold buf_size. simpl. lia.
    + apply (for_uint_no_exit _ _ fill_body_size); [done|].
      unfold buf_size. simpl. lia.
Qed.

(** X2. [fill_buffer] overwrites every slot: what it returns depends on
    the length of the buffer and on the generator, not on what the buffer
    held, so a buffer can be reused without being cleared. *)
Theorem fill_buffer_overwrites (buf buf' : list D) (sqw : SquareWave) :
  length buf = length buf' ->
  fill_buffer buf sqw = fill_buffer buf' sqw.
Proof.
  intros Hlen.
  destruct (Z.lt_ge_cases (Z.of_nat (length buf)) UINT_MOD) as [Hfit|Hbig].
  - rewrite !fill_buffer_generate; unfold fits_uint; [by rewrite Hlen|lia|done].
  - unfold fill_buffer.
    rewrite !(for_uint_no_exit _ _ fill_body_size); try done;
      unfold buf_size; simpl; lia.
Qed.

(** X3. Filtering a buffer in two chunks, the state of the filter carried
    from the first call to the second, gives the samples and the final
    state of filtering it in one call. *)
Theorem iir_chunks (xs ys : list D) (bq : Biquad D) :
  fits_uint (length (xs ++ ys)) ->
  iir (xs ++ ys) bq
  = ('(a, bq1) ← iir xs bq; '(b, bq2) ← iir ys bq1; Some (a ++ b, bq2)).
Proof.
  intros Hfit. rewrite length_app in Hfit. unfold fits_uint in Hfit.
  rewrite !iir_filter_seq by (unfold fits_uint; rewrite ?length_app; lia).
  rewrite filter_seq_app.
  destruct (filter_seq bq xs) as [a bq1]. cbn [mbind option_bind fst snd].
  rewrite iir_filter_seq by (unfold fits_uint; lia).
  by destruct (filter_seq bq1 ys).
Qed.

(** X4. On an empty buffer nothing happens: the generator, the filter and
    every filter of a cascade are returned as they were. *)
Theorem empty_buffer_untouched (sqw : SquareWave) (bq : Biquad D)
    (biquads : list (Biquad D)) :
  fits_uint (length biquads) ->
  fill_buffer [] sqw = Some ([], sqw)
  /\ iir [] bq = Some ([], bq)
  /\ apply_filters (Z.of_nat (length biquads)) [] biquads = Some ([], biquads).
Proof.
  intros Hbq. split; [done|]. split; [done|].
  rewrite apply_filters_passes by done. by rewrite cascade_passes_nil.
Qed.

Lemma process_sample_coefficients (bq : Biquad D) x :
  coefficients (process_sample bq x).2 = coefficients bq.
Proof. done. Qed.

Lemma filter_seq_coefficients (bq : Biquad D) xs :
  coefficients (filter_seq bq xs).2 = coefficients bq.
Proof.
  revert bq. induction xs as [|x xs IH]; intros bq; [done|].
  cbn [filter_seq]. pose proof (process_sample_coefficients bq x) as Hc.
  destruct (process_sample bq x) as [y bq1]. specialize (IH bq1).
  destruct (filter_seq bq1 xs). cbn [fst snd] in *. congruence.
Qed.

Lemma cascade_passes_coefficients (biquads : list (Biquad D)) buf :
  map coefficients (cascade_passes biquads buf).2 = map coefficients biquads.
Proof.
  revert buf. induction biquads as [|bq rest IH]; intros buf; [done|].
  cbn [cascade_passes]. pose proof (filter_seq_coefficients bq buf) as Hc.
  destruct (filter_seq bq buf) as [buf1 bq']. specialize (IH buf1).
  destruct (cascade_passes rest buf1). cbn [fst snd map] in *. congruence.
Qed.

Lemma pipeline_frame n sqw (biquads : list (Biquad D)) :
  switch_samples (pipeline n sqw biquads).1.2 = switch_samples sqw
  /\ map coefficients (pipeline n sqw biquads).2 = map coefficients biquads.
Proof.
  unfold pipeline. pose proof (generate_switch_samples (D:=D) n sqw) as Hs.
  destruct (generate n sqw) as [g s1].
  pose proof (cascade_passes_coefficients biquads g) as Hc.
  by destruct (cascade_passes biquads g).
Qed.

Lemma pipeline_n_frame count n sqw (biquads : list (Biquad D)) outs :
  let r := pipeline_n count n sqw biquads outs in
  switch_samples r.1.2 = switch_samples sqw
  /\ map coefficients r.2 = map coefficients biquads
  /\ exists news, r.1.1 = outs ++ news
                  /\ length news = count
                  /\ Forall (fun w => length w = n) news.
Proof.
  revert sqw biquads outs. induction count as [|count IH]; intros sqw biquads outs.
  - simpl. split; [done|]. split; [done|]. exists []. by rewrite app_nil_r.
  - cbn [pipeline_n]. pose proof (pipeline_frame n sqw biquads) as [Hs Hc].
    pose proof (pipeline_length n sqw biquads) as [Hl _].
    destruct (pipeline n sqw biquads) as [[a s1] bs1]. cbn [fst snd] in *.
    destruct (IH s1 bs1 (outs ++ [a])) as (Hs' & Hc' & news & Hw & Hn & Hall).
    cbn zeta. split; [congruence|]. split; [congruence|].
    exists (a :: news). rewrite Hw, <- app_assoc. split; [done|].
    split; [simpl; lia|]. by constructor.
Qed.

(** X5. Whatever the inner loop of [main] returns after [buffer_count]
    passes, it has kept the length of the buffer, the half period of the
    generator, the number of filters and the coefficients of each, and it
    has handed on [buffer_count] more buffers, each of the buffer's length. *)
Theorem run_buffers_frame (buffer_count : Z) (st st' : TrialState D) :
  0 <= buffer_count < UINT_MOD ->
  run_buffers (Z.of_nat (length (t_biquads st))) buffer_count st = Some st' ->
  length (t_buf st') = length (t_buf st)
  /\ switch_samples (t_sqw st') = switch_samples (t_sqw st)
  /\ map coefficients (t_biquads st') = map coefficients (t_biquads st)
  /\ exists news,
       written st' = written st ++ news
       /\ Z.of_nat (length news) = buffer_count
       /\ Forall (fun w => length w = length (t_buf st)) news.
Proof.
  intros Hc Hrun. destruct (Z.eq_dec buffer_count 0) as [->|Hpos].
  - cbn in Hrun. injection Hrun as <-. repeat split; try done.
    exists []. by rewrite app_nil_r.
  - assert (fits_uint (length (t_buf st))
            /\ fits_uint (length (t_biquads st))) as [Hbuf Hbq].
    { unfold run_buffers in Hrun. cbn [for_uint] in Hrun.
      destruct (Z.ltb_spec 0 buffer_count) as [_|?]; [|lia].
      destruct (buffer_body _ 0 st) as [st1|] eqn:E; [|done].
      by apply buffer_body_returns in E. }
    destruct (run_buffers_pipeline buffer_count st Hc Hbuf Hbq)
      as (buf & Hrun' & Hlen).
    rewrite Hrun in Hrun'.
    pose proof (pipeline_n_frame (Z.to_nat buffer_count) (length (t_buf st))
                  (t_sqw st) (t_biquads st) (written st)) as Hframe.
    cbn zeta in Hframe.
    destruct (pipeline_n _ _ _ _ _) as [[outs s'] bs'].
    injection Hrun' as ->. cbn [t_buf t_sqw t_biquads written fst snd] in *.
    destruct Hframe as (Hs & Hco & news & Hw & Hn & Hall).
    split; [done|]. split; [done|]. split; [done|].
    exists news. split; [done|]. split; [lia|done].
Qed.

End BufferProperties.

(** ** The generator: period and degenerate half period *)

Section GeneratorProperties.
Context {D : Type} {num : Real64 D}.

Lemma phase_next_progress hp t sqw :
  1 <= hp -> hp < SIZE_MOD -> phase hp t sqw ->
  1 <= progress (next_sample (D:=D) sqw).2.
Proof.
  intros Hhp Hsz (k & Hk & Ht & Hp & Hst & Hsw).
  unfold next_sample. cbn [snd progress]. rewrite Hsw.
  destruct (Z.eqb_spec (progress sqw) hp).
  - rewrite size_succ_small by lia. lia.
  - rewrite size_succ_small by lia. lia.
Qed.

Lemma phase_generate_progress hp n t sqw :
  1 <= hp -> hp < SIZE_MOD -> phase hp t sqw ->
  1 <= progress sqw \/ (0 < n)%nat ->
  1 <= progress (generate (D:=D) n sqw).2.
Proof.
  intros Hhp Hsz. revert t sqw.
  induction n as [|n IH]; intros t sqw Hph Hpos.
  - simpl. lia.
  - cbn [generate]. pose proof (phase_next_progress hp t sqw Hhp Hsz Hph) as H1.
    destruct (phase_next (D:=D) hp Hhp Hsz t sqw Hph) as [_ Hph1].
    destruct (next_sample sqw) as [v sqw1]. cbn [fst snd] in *.
    specialize (IH (t + 1) sqw1 Hph1 (or_introl H1)).
    by destruct (generate n sqw1).
Qed.

(** X6. A running generator ([1 <= progress <= switch_samples]) is back in
    the very state it was in after [2 * switch_samples] samples: the wave
    has that period from any point on, not only from a reset. *)
Theorem generator_period (sqw : SquareWave) (buf : list D) :
  1 <= progress sqw <= switch_samples sqw ->
  switch_samples sqw < SIZE_MOD ->
  Z.of_nat (length buf) = 2 * switch_samples sqw ->
  fits_uint (length buf) ->
  exists out, fill_buffer buf sqw = Some (out, sqw).
Proof.
  intros Hp Hsz Hlen Hfit. rewrite fill_buffer_generate by done.
  set (hp := switch_samples sqw) in *.
  assert (1 <= hp) as Hhp by lia.
  set (k := if status sqw then 1 else 0).
  assert (phase hp (k * hp + progress sqw) sqw) as Hph.
  { exists k. unfold k. repeat split; try lia; by destruct (status sqw). }
  destruct (phase_generate (D:=D) hp Hhp Hsz (length buf) _ sqw Hph)
    as [_ (k' & Hk' & Ht' & Hp' & Hst' & Hsw')].
  pose proof (phase_generate_progress hp (length buf) _ sqw Hhp Hsz Hph
                ltac:(left; lia)) as Hpos.
  destruct (generate (length buf) sqw) as [out sqw'].
  cbn [fst snd] in *. exists out. do 2 f_equal.
  assert (k' = k + 2) as ->.
  { destruct (Z.lt_trichotomy k' (k + 2)) as [Hlt|[Heq|Hgt]]; [|done|].
    - assert (k' + 1 <= k + 2) as Hle by lia.
      assert ((k' + 1) * hp <= (k + 2) * hp) by (apply Z.mul_le_mono_nonneg_r; lia).
      lia.
    - assert (k + 2 + 1 <= k') as Hle by lia.
      assert ((k + 2 + 1) * hp <= k' * hp) by (apply Z.mul_le_mono_nonneg_r; lia).
      lia. }
  assert (progress sqw' = progress sqw) as Hprog by lia.
  destruct sqw as [sw st pr], sqw' as [sw' st' pr']. cbn in *. subst.
  f_equal. unfold k. by destruct st.
Qed.

Lemma generate_stuck n sqw :
  switch_samples sqw = 0 -> 1 <= progress sqw ->
  progress sqw + Z.of_nat n < SIZE_MOD ->
  generate (D:=D) n sqw
  = (replicate n (if status sqw then ddec 5 10 else (- ddec 5 10)%D),
     mkSquareWave 0 (status sqw) (progress sqw + Z.of_nat n)).
Proof.
  revert sqw. induction n as [|n IH]; intros sqw Hsw Hp Hn.
  - simpl. rewrite Z.add_0_r. by destruct sqw; simpl in *; subst.
  - cbn [generate]. unfold next_sample. rewrite Hsw.
    destruct (Z.eqb_spec (progress sqw) 0) as [?|_]; [lia|].
    rewrite size_succ_small by lia.
    rewrite IH; cbn [switch_samples status progress]; [|done|lia|lia].
    cbn [replicate]. f_equal. f_equal. lia.
Qed.

(** A half period of zero: the first sample flips the level and the
    counter leaves zero for good, so the level never changes again. *)
Lemma fill_buffer_stuck (buf : list D) sqw :
  switch_samples sqw = 0 -> progress sqw = 0 ->
  buf <> [] -> fits_uint (length buf) ->
  fill_buffer buf sqw
  = Some (replicate (length buf)
            (if status sqw then (- ddec 5 10)%D else ddec 5 10),
          mkSquareWave 0 (negb (status sqw)) (Z.of_nat (length buf))).
Proof.
  intros Hsw Hp Hne Hfit. rewrite fill_buffer_generate by done.
  destruct buf as [|x buf]; [done|]. cbn [length generate].
  unfold next_sample. rewrite Hsw, Hp. cbn [Z.eqb].
  change (size_succ 0) with 1.
  unfold fits_uint, UINT_MOD in Hfit. cbn [length] in Hfit.
  rewrite generate_stuck; cbn [switch_samples status progress];
    [|done|lia|unfold SIZE_MOD; lia].
  cbn [replicate]. destruct (status sqw); cbn [negb]; f_equal; f_equal; f_equal; lia.
Qed.

End GeneratorProperties.

(** X7. A frequency above the sample rate gives no square wave: the half
    period rounds to 0, and after [reset()] every sample written is [+0.5]
    (exact reals). *)
Theorem frequency_above_sample_rate (fs f : R) (buf : list R) :
  (0 < fs)%R -> (fs < f)%R -> buf <> [] -> fits_uint (length buf) ->
  exists sqw,
    SquareWave_new fs f = Some sqw
    /\ switch_samples sqw = 0
    /\ fill_buffer buf (SquareWave_reset sqw)
       = Some (replicate (length buf) (ddec 5 10),
               mkSquareWave 0 true (Z.of_nat (length buf))).
Proof.
  intros Hfs Hf Hne Hfit. exists (mkSquareWave 0 false 0).
  split; [|split; [done|]].
  - rewrite SquareWave_new_real, c_round_below_half; [done|].
    assert (0 < fs / f < 1)%R as [H0 H1].
    { split; [apply Rdiv_lt_0_compat; lra|].
      apply (Rmult_lt_reg_r f); [lra|].
      replace (fs / f * f)%R with fs by (field; lra). lra. }
    lra.
  - by rewrite fill_buffer_stuck.
Qed.

(** ** The filter as a linear system (exact reals) *)

Section LinearSystem.
Local Open Scope R_scope.

Lemma filter_seq_blend c d (p q : Biquad R) xs ys :
  coefficients p = coefficients q -> length xs = length ys ->
  filter_seq (blend c d p q) (zip_with (fun x y => c * x + d * y) xs ys)
  = (zip_with (fun x y => c * x + d * y)
       (filter_seq p xs).1 (filter_seq q ys).1,
     blend c d (filter_seq p xs).2 (filter_seq q ys).2).
Proof.
  revert p q ys. induction xs as [|x xs IH]; intros p q [|y ys] Hc Hlen;
    try done.
  cbn [zip_with filter_seq].
  assert (process_sample (blend c d p q) (c * x + d * y)
          = (c * (process_sample p x).1 + d * (process_sample q y).1,
             blend c d (process_sample p x).2 (process_sample q y).2)) as ->.
  { unfold process_sample, blend, coefficients in *. cbn.
    injection Hc as <- <- <- <- <-. f_equal; [ring|]. f_equal; ring. }
  pose proof (process_sample_coefficients p x) as Hp.
  pose proof (process_sample_coefficients q y) as Hq.
  destruct (process_sample p x) as [u p1], (process_sample q y) as [v q1].
  cbn [fst snd] in *. rewrite IH by (congruence || (simpl in Hlen; lia)).
  destruct (filter_seq p1 xs), (filter_seq q1 ys). done.
Qed.

(** X8. Superposition: over the same coefficients, the filter applied to
    [c*x + d*y] from the state [c*s + d*t] returns [c] times its output on
    [x] from [s] plus [d] times its output on [y] from [t], sample by
    sample, and ends in the same combination of the two final states. *)
Theorem iir_superposition (c d : R) (p q : Biquad R) (xs ys : list R) :
  coefficients p = coefficients q -> length xs = length ys ->
  fits_uint (length xs) ->
  exists outx p' outy q',
    iir xs p = Some (outx, p') /\ iir ys q = Some (outy, q')
    /\ iir (zip_with (fun x y => c * x + d * y) xs ys) (blend c d p q)
       = Some (zip_with (fun x y => c * x + d * y) outx outy,
               blend c d p' q').
Proof.
  intros Hc Hlen Hfit.
  rewrite !iir_filter_seq
    by (unfold fits_uint in *; rewrite ?length_zip_with; lia).
  rewrite filter_seq_blend by done.
  destruct (filter_seq p xs) as [outx p'], (filter_seq q ys) as [outy q'].
  by exists outx, p', outy, q'.
Qed.

Lemma filter_seq_silence (bq : Biquad R) n :
  state bq = (0, 0, 0, 0) ->
  filter_seq bq (replicate n 0) = (replicate n 0, bq).
Proof.
  intros Hs. destruct bq as [c0 c1 c2 d1 d2 s1 s2 t1 t2].
  unfold state in Hs. cbn in Hs. injection Hs as -> -> -> ->.
  induction n as [|n IH]; [done|].
  cbn [replicate filter_seq].
  assert (process_sample (mkBiquad c0 c1 c2 d1 d2 0 0 0 0) 0
          = (0, mkBiquad c0 c1 c2 d1 d2 0 0 0 0)) as ->.
  { unfold process_sample. cbn.
    by replace (c0 * 0 + c1 * 0 + c2 * 0 - d1 * 0 - d2 * 0) with 0 by ring. }
  by rewrite IH.
Qed.

(** X9. Silence in, silence out: a filter in its reset state, given a
    buffer of zeros, leaves the zeros and stays in its reset state, whatever
    its coefficients. *)
Theorem iir_silence (bq : Biquad R) (n : nat) :
  fits_uint n ->
  iir (replicate n 0) (Biquad_reset bq)
  = Some (replicate n 0, Biquad_reset bq).
Proof.
  intros Hfit. rewrite iir_filter_seq by by rewrite length_replicate.
  by rewrite filter_seq_silence.
Qed.

Lemma pair_sample (p q : Biquad R) x :
  inverse_coeffs p q -> in_step p q ->
  (process_sample q (process_sample p x).1).1 = x
  /\ inverse_coeffs (process_sample p x).2
       (process_sample q (process_sample p x).1).2
  /\ in_step (process_sample p x).2
       (process_sample q (process_sample p x).1).2.
Proof.
  intros (Hb0 & H0 & H1 & H2 & H3 & H4) (Hx1 & Hx2 & Hy1 & Hy2).
  unfold process_sample, inverse_coeffs, in_step. cbn.
  rewrite H0, H1, H2, H3, H4, Hx1, Hx2, Hy1, Hy2.
  assert (/ b0 p * (b0 p * x + b1 p * x1 p + b2 p * x2 p - a1 p * y1 p
                    - a2 p * y2 p)
          + a1 p / b0 p * y1 p + a2 p / b0 p * y2 p
          - b1 p / b0 p * x1 p - b2 p / b0 p * x2 p = x) as -> by (by field).
  done.
Qed.

Lemma pair_seq (p q : Biquad R) xs :
  inverse_coeffs p q -> in_step p q ->
  (filter_seq q (filter_seq p xs).1).1 = xs
  /\ inverse_coeffs (filter_seq p xs).2 (filter_seq q (filter_seq p xs).1).2
  /\ in_step (filter_seq p xs).2 (filter_seq q (filter_seq p xs).1).2.
Proof.
  revert p q. induction xs as [|x xs IH]; intros p q Hc Hs; [done|].
  cbn [filter_seq]. destruct (pair_sample p q x Hc Hs) as (Hz & Hc1 & Hs1).
  destruct (process_sample p x) as [y p1]. cbn [fst snd] in *.
  destruct (filter_seq p1 xs) as [ys p2] eqn:Ep. cbn [fst snd filter_seq].
  destruct (process_sample q y) as [z q1]. cbn [fst snd] in *.
  specialize (IH p1 q1 Hc1 Hs1). rewrite Ep in IH. cbn [fst snd] in IH.
  destruct (filter_seq q1 ys) as [zs q2]. cbn [fst snd] in *.
  destruct IH as (-> & ? & ?). by subst.
Qed.

Lemma cascade_passes_paired (n : nat) :
  forall (biquads : list (Biquad R)) xs,
    length biquads = (2 * n)%nat -> all_paired biquads ->
    (cascade_passes biquads xs).1 = xs
    /\ all_paired (cascade_passes biquads xs).2.
Proof.
  induction n as [|n IH]; intros biquads xs Hlen Hall.
  - destruct biquads; [done | simpl in Hlen; lia].
  - destruct biquads as [|p [|q rest]]; try done.
    destruct Hall as (Hc & Hs & Hrest).
    destruct (pair_seq p q xs Hc Hs) as (Hid & Hc' & Hs').
    cbn [cascade_passes].
    destruct (filter_seq p xs) as [ys p']. cbn [fst snd] in *.
    destruct (filter_seq q ys) as [zs q']. cbn [fst snd] in *. subst zs.
    destruct (IH rest xs) as [Hout Hall']; [simpl in Hlen; lia|done|].
    destruct (cascade_passes rest xs) as [out rest']. cbn [fst snd] in *.
    by subst.
Qed.

Lemma all_paired_even (biquads : list (Biquad R)) :
  all_paired biquads -> exists n, length biquads = (2 * n)%nat.
Proof.
  remember (length biquads) as m eqn:Hm. revert biquads Hm.
  induction (lt_wf m) as [m _ IH]. intros [|p [|q rest]] Hm Hall; try done.
  - by exists 0%nat.
  - destruct Hall as (_ & _ & Hrest).
    destruct (IH (length rest) ltac:(simpl in Hm; lia) rest eq_refl Hrest)
      as [n Hn].
    exists (S n). simpl in *. lia.
Qed.

Lemma reset_paired (biquads : list (Biquad R)) :
  all_paired biquads -> all_paired (reset_biquads biquads).
Proof.
  intros Hall. destruct (all_paired_even biquads Hall) as [n Hn].
  revert biquads Hall Hn. induction n as [|n IH]; intros biquads Hall Hn.
  - by destruct biquads.
  - destruct biquads as [|p [|q rest]]; try done.
    destruct Hall as (Hc & _ & Hrest). cbn [reset_biquads map all_paired].
    split; [by destruct p, q|]. split; [done|].
    apply IH; [done | simpl in Hn; lia].
Qed.

End LinearSystem.

(** ** The bank of [main]: boosts and cuts in pairs *)

Section Bank.

Lemma push_fold_pairs {D : Type} {num : Real64 D} {libm : Libm D} (m : nat) :
  forall i (biquads : list (Biquad D)),
    fold_range push_body i (2 * m) (biquads, true)
    = Some (biquads ++ eq_bank m, true).
Proof.
  induction m as [|m IH]; intros i biquads.
  - simpl. by rewrite app_nil_r.
  - replace (2 * S m)%nat with (S (S (2 * m))) by lia.
    cbn [fold_range push_body mbind option_bind negb].
    rewrite IH. unfold eq_bank. cbn [replicate concat eq_pair app].
    by rewrite <- !app_assoc.
Qed.

Lemma eq_bank_lookup {D : Type} {num : Real64 D} {libm : Libm D} (m : nat) :
  forall i : nat,
    (i < 2 * m)%nat ->
    eq_bank (D:=D) m !! i
    = Some (peak_eq SAMPLE_RATE (dint 50) (ddec 3 10)
              (if Nat.even i then dint 2 else (- dint 2)%D)).
Proof.
  induction m as [|m IH]; intros i Hi; [lia|].
  destruct i as [|[|i]]; [done|done|].
  unfold eq_bank. cbn [replicate concat eq_pair app lookup list_lookup].
  change (Nat.even (S (S i))) with (Nat.even i). apply IH. lia.
Qed.

(** X10. The loop of [main] that fills [biquads] returns 100 filters, all
    at 50 Hz and [q = 0.3] and in their reset state: a boost of 2 dB at
    every even index, a cut of 2 dB at every odd one. *)
Theorem build_biquads_alternates {D : Type} {num : Real64 D}
    {libm : Libm D} :
  exists biquads : list (Biquad D),
    build_biquads = Some (biquads, true)
    /\ length biquads = 100%nat
    /\ (forall i : nat,
          (i < 100)%nat ->
          biquads !! i
          = Some (peak_eq SAMPLE_RATE (dint 50) (ddec 3 10)
                    (if Nat.even i then dint 2 else (- dint 2)%D)))
    /\ Forall (fun bq => state bq = (dint 0, dint 0, dint 0, dint 0)) biquads.
Proof.
  exists (eq_bank 50). split; [|split; [done|split]].
  - unfold build_biquads.
    rewrite for_uint_fold;
      [|done|done|reflexivity|exact (Nat.lt_succ_diag_r _)].
    exact (push_fold_pairs 50 0 []).
  - intros i Hi. apply eq_bank_lookup. lia.
  - unfold eq_bank. generalize 50%nat. intros m.
    induction m as [|m IH]; [done|].
    cbn [replicate concat eq_pair app]. by repeat constructor.
Qed.

Local Open Scope R_scope.

Lemma audio_band_alpha fs f0 q :
  0 < q -> 0 <= f0 -> 2 * f0 <= fs -> 0 < fs ->
  0 <= sin (2 * PI * f0 / fs) / (2 * q).
Proof.
  intros Hq Hf0 Hny Hfs. pose proof PI_RGT_0 as Hpi.
  assert (0 <= f0 / fs <= / 2) as [Ht0 Ht1].
  { split.
    - apply Rle_mult_inv_pos; lra.
    - apply (Rmult_le_reg_r fs); [lra|].
      replace (f0 / fs * fs) with f0 by (field; lra). lra. }
  replace (2 * PI * f0 / fs) with (2 * PI * (f0 / fs)) by (field; lra).
  assert (0 <= sin (2 * PI * (f0 / fs))) as Hsin
    by (apply sin_ge_0; nra).
  apply Rle_mult_inv_pos; lra.
Qed.

Lemma peak_eq_inverse fs f0 q g :
  0 < q -> 0 <= f0 -> 2 * f0 <= fs -> 0 < fs ->
  inverse_coeffs (peak_eq fs f0 q g) (peak_eq fs f0 q (- g))
  /\ in_step (peak_eq fs f0 q g) (peak_eq fs f0 q (- g)).
Proof.
  intros Hq Hf0 Hny Hfs. split; [|done].
  pose proof (audio_band_alpha fs f0 q Hq Hf0 Hny Hfs) as Halpha.
  unfold inverse_coeffs, peak_eq. cbn.
  replace (- g / 40) with (- (g / 40)) by lra. rewrite Rpower_Ropp.
  set (alpha := sin (2 * PI * f0 / fs) / (2 * q)) in *.
  assert (0 < Rpower 10 (g / 40)) as HA by (unfold Rpower; apply exp_pos).
  set (A := Rpower 10 (g / 40)) in *.
  assert (0 < / A) as HAi by (by apply Rinv_0_lt_compat).
  assert (0 <= alpha * A) as H1 by (apply Rmult_le_pos; lra).
  assert (0 <= alpha / A) as H2 by (apply Rmult_le_pos; lra).
  assert (alpha / / A = alpha * A) as -> by (field; lra).
  assert (alpha * / A = alpha / A) as -> by done.
  split.
  { apply Rmult_integral_contrapositive. split; [lra|].
    apply Rinv_neq_0_compat. lra. }
  repeat split; field; lra.
Qed.

Lemma eq_bank_paired (m : nat) : all_paired (eq_bank (D:=R) m).
Proof.
  induction m as [|m IH]; [done|].
  unfold eq_bank. cbn [replicate concat eq_pair app all_paired].
  destruct (peak_eq_inverse SAMPLE_RATE 50 (3 / 10) 2) as [Hc Hs];
    try (unfold SAMPLE_RATE; simpl; lra).
  split; [exact Hc|]. split; [exact Hs|]. exact IH.
Qed.

End Bank.

(** X11. A boost and the cut of the same size undo each other: in exact
    arithmetic, for [q > 0] and [0 <= f0 <= fs/2], [peak_eq] at [g] dB
    followed by [peak_eq] at [-g] dB returns the buffer it was given. *)
Theorem boost_then_cut (fs f0 q g : R) (buf : list R) :
  (0 < q)%R -> (0 <= f0)%R -> (2 * f0 <= fs)%R -> (0 < fs)%R ->
  fits_uint (length buf) ->
  exists biquads,
    apply_filters 2 buf [peak_eq fs f0 q g; peak_eq fs f0 q (- g)%R]
    = Some (buf, biquads).
Proof.
  intros Hq Hf0 Hny Hfs Hfit.
  destruct (peak_eq_inverse fs f0 q g Hq Hf0 Hny Hfs) as [Hc Hs].
  rewrite (apply_filters_passes [_; _] buf) by done.
  destruct (cascade_passes_paired 1
              [peak_eq fs f0 q g; peak_eq fs f0 q (- g)%R] buf eq_refl)
    as [Hid _]; [exact (conj Hc (conj Hs I))|].
  destruct (cascade_passes _ buf) as [out bs]. cbn [fst] in Hid. subst out.
  by exists bs.
Qed.

(** ** What [main] writes, trial after trial (exact reals) *)

Section Stream.

Lemma sample_count_split l :
  0 <= l <= 19 ->
  (Z.to_nat (SAMPLE_COUNT / 2 ^ l) * Z.to_nat (2 ^ l))%nat
  = Z.to_nat SAMPLE_COUNT.
Proof.
  intros Hl. assert (0 < 2 ^ l) as Hpos by (apply Z.pow_pos_nonneg; lia).
  assert (SAMPLE_COUNT = 2 ^ (19 - l) * 2 ^ l) as Hsplit.
  { rewrite <- Z.pow_add_r by lia. by replace (19 - l + l) with 19 by lia. }
  rewrite <- Z2Nat.inj_mul; [|apply Z.div_pos; [by rewrite Hsplit; lia|lia]|lia].
  f_equal. rewrite Hsplit at 1. rewrite Z.div_mul by lia. by rewrite <- Hsplit.
Qed.

(** One trial, in full. *)
Lemma trial_real_run l sqw (biquads : list (Biquad R)) reports :
  0 <= l <= 19 -> Z.of_nat (length biquads) = FILTER_COUNT ->
  trial l (sqw, biquads, reports)
  = let '(outs, sqw', biquads') :=
      pipeline_n (Z.to_nat (SAMPLE_COUNT / 2 ^ l)) (Z.to_nat (2 ^ l))
        (SquareWave_reset sqw) (reset_biquads biquads) [] in
    Some (sqw', biquads',
          reports ++ [mkTrialReport (2 ^ l) (SAMPLE_COUNT / 2 ^ l) outs]).
Proof.
  intros Hl Hbq. unfold trial.
  assert (dtrunc (dpow (dint 2) (dint l : R)) = Some (2 ^ l)) as ->.
  { simpl. by rewrite Rpower_2_IZR, c_trunc_IZR by lia. }
  cbn [mbind option_bind].
  assert (0 < 2 ^ l <= 2 ^ 19) as Hpow.
  { split; [apply Z.pow_pos_nonneg; lia | apply Z.pow_le_mono_r; lia]. }
  assert (to_size_t (2 ^ l) = Some (2 ^ l)) as ->.
  { apply to_size_t_Some. unfold SIZE_MOD. split; [done|]. lia. }
  cbn [mbind option_bind].
  destruct (Z.eqb_spec (2 ^ l) 0) as [?|_]; [lia|]. cbn [mbind option_bind].
  assert (0 <= SAMPLE_COUNT / 2 ^ l <= SAMPLE_COUNT) as Hcount.
  { unfold SAMPLE_COUNT. split; [apply Z.div_pos; lia|].
    apply Z.div_le_upper_bound; nia. }
  rewrite (to_uint_small (SAMPLE_COUNT / 2 ^ l))
    by (unfold SAMPLE_COUNT, UINT_MOD in *; lia).
  set (st := mkTrialState _ _ _ _).
  assert (to_uint FILTER_COUNT = Z.of_nat (length (t_biquads st))) as ->.
  { unfold st, reset_biquads. cbn [t_biquads]. by rewrite length_map, Hbq. }
  destruct (run_buffers_pipeline (SAMPLE_COUNT / 2 ^ l) st)
    as (buf & -> & _).
  { unfold SAMPLE_COUNT, UINT_MOD in *. lia. }
  { unfold st, fits_uint, UINT_MOD. cbn [t_buf].
    rewrite length_replicate, Z2Nat.id; lia. }
  { unfold st, fits_uint, UINT_MOD, reset_biquads. cbn [t_biquads].
    rewrite length_map, Hbq. reflexivity. }
  unfold st. cbn [t_buf t_sqw t_biquads written]. rewrite length_replicate.
  by destruct (pipeline_n _ _ _ _ _) as [[outs s'] bs'].
Qed.

Lemma pipeline_paired n sqw (biquads : list (Biquad R)) :
  all_paired biquads ->
  (pipeline n sqw biquads).1.1 = (generate n sqw).1
  /\ all_paired (pipeline n sqw biquads).2.
Proof.
  intros Hall. destruct (all_paired_even biquads Hall) as [m Hm].
  unfold pipeline. destruct (generate n sqw) as [g s1].
  destruct (cascade_passes_paired m biquads g Hm Hall) as [Hid Hall'].
  by destruct (cascade_passes biquads g).
Qed.

Lemma trial_stream l sqw (biquads : list (Biquad R)) reports :
  0 <= l <= 19 -> Z.of_nat (length biquads) = FILTER_COUNT ->
  all_paired biquads -> switch_samples sqw = 480 ->
  exists sqw' biquads' outs,
    trial l (sqw, biquads, reports)
    = Some (sqw', biquads',
            reports ++ [mkTrialReport (2 ^ l) (SAMPLE_COUNT / 2 ^ l) outs])
    /\ concat outs = main_stream
    /\ Z.of_nat (length biquads') = FILTER_COUNT
    /\ all_paired biquads' /\ switch_samples sqw' = 480.
Proof.
  intros Hl Hbq Hall Hsw. rewrite trial_real_run by done.
  assert (SquareWave_reset sqw = mkSquareWave 480 false 0) as ->
    by (unfold SquareWave_reset; by rewrite Hsw).
  pose proof (reset_paired biquads Hall) as Hall0.
  set (count := Z.to_nat (SAMPLE_COUNT / 2 ^ l)).
  set (n := Z.to_nat (2 ^ l)).
  pose proof (pipeline_n_concat count n (mkSquareWave 480 false 0)
                (reset_biquads biquads) []) as Hcat.
  pose proof (pipeline_n_length count n (mkSquareWave 480 false 0)
                (reset_biquads biquads) []) as [_ Hlen].
  pose proof (pipeline_n_frame count n (mkSquareWave 480 false 0)
                (reset_biquads biquads) []) as Hfr.
  cbn zeta in Hcat, Hfr.
  destruct (pipeline_paired (count * n) (mkSquareWave 480 false 0)
              (reset_biquads biquads) Hall0) as [Hgen Hall1].
  unfold count, n in Hgen, Hall1, Hcat. rewrite sample_count_split in * by done.
  fold count n in Hcat.
  destruct (pipeline_n count n _ _ _) as [[outs s'] bs'].
  cbn [fst snd] in *. destruct Hcat as (Hc & _ & Hbs).
  destruct Hfr as (Hs' & _). exists s', bs', outs.
  split; [reflexivity|]. split.
  { unfold main_stream. rewrite Hc, Hgen. cbn [concat app]. reflexivity. }
  split.
  { rewrite Hlen. unfold reset_biquads. rewrite length_map. exact Hbq. }
  split; [rewrite Hbs; exact Hall1 | exact Hs'].
Qed.

Lemma sweep_stream (n : nat) l sqw (biquads : list (Biquad R)) reports :
  0 <= l -> l + Z.of_nat n <= 20 ->
  Z.of_nat (length biquads) = FILTER_COUNT ->
  all_paired biquads -> switch_samples sqw = 480 ->
  Forall (fun r => concat (r_written r) = main_stream) reports ->
  exists sqw' biquads' reports',
    fold_range trial l n (sqw, biquads, reports)
    = Some (sqw', biquads', reports')
    /\ Forall (fun r => concat (r_written r) = main_stream) reports'.
Proof.
  revert l sqw biquads reports.
  induction n as [|n IH]; intros l sqw biquads reports Hl Hn Hbq Hall Hsw Hrep.
  - exists sqw, biquads, reports. split; [reflexivity | exact Hrep].
  - cbn [fold_range].
    destruct (trial_stream l sqw biquads reports ltac:(lia) Hbq Hall Hsw)
      as (s1 & b1 & outs & Htrial & Hout & Hb1 & Hall1 & Hsw1).
    rewrite Htrial. cbn [mbind option_bind].
    apply IH; [lia | lia | exact Hb1 | exact Hall1 | exact Hsw1 |].
    apply Forall_app. split; [exact Hrep|].
    apply Forall_singleton. exact Hout.
Qed.

Lemma main_stream_shape :
  Z.of_nat (length main_stream) = SAMPLE_COUNT
  /\ forall k, 0 <= k < SAMPLE_COUNT ->
       main_stream !! Z.to_nat k = Some (square_sample 480 k).
Proof.
  unfold main_stream. split.
  - rewrite generate_length. apply Z2Nat.id. discriminate.
  - intros k Hk.
    destruct (phase_generate (D:=R) 480 ltac:(lia) ltac:(reflexivity)
                (Z.to_nat SAMPLE_COUNT) 0 (mkSquareWave 480 false 0))
      as [Hs _].
    { exists 0. cbn [progress status switch_samples].
      repeat split; (reflexivity || lia). }
    rewrite Hs by lia. do 2 f_equal. lia.
Qed.

End Stream.

(** X12. In exact arithmetic [main] filters nothing away: its 100 filters
    are 50 boost-and-cut pairs that undo each other, so each of the ten
    trials hands on, buffer after buffer, the [SAMPLE_COUNT] samples of the
    50 Hz square wave as the generator wrote them, sample [k] being [-0.5]
    or [+0.5] as [k / 480] is even or odd, whatever the buffer length. *)
Theorem main_writes_square_wave :
  exists reports,
    main (D:=R) = Some reports
    /\ length reports = 10%nat
    /\ Forall (fun r =>
                 Z.of_nat (length (concat (r_written r))) = SAMPLE_COUNT
                 /\ forall k, 0 <= k < SAMPLE_COUNT ->
                      concat (r_written r) !! Z.to_nat k
                      = Some (square_sample 480 k)) reports.
Proof.
  destruct main_real_reports as (reports & Hmain & Hlens & _).
  exists reports. split; [exact Hmain|]. split.
  { rewrite <- (length_map buffer_len), Hlens. reflexivity. }
  unfold main in Hmain. rewrite main_generator_real in Hmain.
  cbn [mbind option_bind] in Hmain.
  rewrite for_uint_fold in Hmain;
    [|intros; reflexivity|lia|reflexivity|exact (Nat.lt_succ_diag_r _)].
  change (Z.to_nat (to_uint FILTER_COUNT - 0)) with (2 * 50)%nat in Hmain.
  rewrite (push_fold_pairs (D:=R) 50 0 []) in Hmain.
  cbn [mbind option_bind app] in Hmain. unfold sweep in Hmain.
  rewrite for_uint_fold in Hmain;
    [|intros; reflexivity|lia|reflexivity|vm_compute; lia].
  destruct (sweep_stream (Z.to_nat (BUFFER_LEN_TESTS - 3)) 3
              (mkSquareWave 480 false 0) (eq_bank 50) [])
    as (s & bs & reports' & Hrun & Hall);
    [lia | vm_compute; discriminate | reflexivity | apply eq_bank_paired
    | reflexivity | constructor |].
  rewrite Hrun in Hmain. cbn [mbind option_bind] in Hmain.
  injection Hmain as <-.
  eapply Forall_impl; [exact Hall|]. intros r Hr. rewrite Hr.
  apply main_stream_shape.
Qed.

(** ** The report *)

(** X13. What [print_elapsed] prints, for a positive nanosecond count and
    a positive filter count (exact reals): the duration is the count shared
    out over [filter_count * SAMPLE_COUNT] filter steps, the real-time
    factor is the signal time of those steps at 48000 Hz over the time
    taken, and it is at least 1 exactly when
    [elapsed * 48000 <= filter_count * SAMPLE_COUNT * 10^9]. *)
Theorem print_elapsed_values (elapsed filter_count : Z) :
  0 < elapsed -> 0 < filter_count ->
  let r := print_elapsed (D:=R) elapsed filter_count in
  (0 < r.1)%R
  /\ (r.1 * IZR (filter_count * SAMPLE_COUNT) = IZR elapsed)%R
  /\ (r.2 * IZR (elapsed * 48000)
      = IZR (filter_count * SAMPLE_COUNT * 10 ^ 9))%R
  /\ ((1 <= r.2)%R
      <-> elapsed * 48000 <= filter_count * SAMPLE_COUNT * 10 ^ 9).
Proof.
  intros He Hf r.
  assert (0 < IZR elapsed)%R as HE by (by apply IZR_lt).
  assert (0 < IZR filter_count)%R as HF by (by apply IZR_lt).
  assert (r.1 = IZR elapsed / IZR filter_count / 524288)%R as H1 by done.
  assert (r.2 = 1 / r.1 / 48000 * 1000000000)%R as H2 by done.
  assert (0 < r.1)%R as Hd.
  { rewrite H1. apply Rdiv_lt_0_compat; [|lra].
    by apply Rdiv_lt_0_compat. }
  assert (r.1 * (IZR filter_count * 524288) = IZR elapsed)%R as Hdur.
  { rewrite H1. field. lra. }
  assert (r.2 * (IZR elapsed * 48000)
          = IZR filter_count * 524288 * 1000000000)%R as Hreal.
  { rewrite H2, <- Hdur. field. lra. }
  split; [done|]. split.
  { rewrite mult_IZR. exact Hdur. }
  split.
  { rewrite !mult_IZR. exact Hreal. }
  assert (0 < IZR elapsed * 48000)%R as Hpos by lra.
  split.
  - intros Hge. apply le_IZR. rewrite !mult_IZR.
    change (IZR SAMPLE_COUNT) with 524288%R.
    change (IZR (10 ^ 9)) with 1000000000%R.
    change (IZR 48000) with 48000%R. nra.
  - intros Hle. apply IZR_le in Hle. rewrite !mult_IZR in Hle.
    change (IZR SAMPLE_COUNT) with 524288%R in Hle.
    change (IZR (10 ^ 9)) with 1000000000%R in Hle.
    change (IZR 48000) with 48000%R in Hle. nra.
Qed.

(** ** Instances of the further properties *)

Lemma fill_buffer_overwrites_witness :
  length demo_buf = length [0; 0; 0]%float
  /\ fill_buffer demo_buf demo_sqw = fill_buffer [0; 0; 0]%float demo_sqw.
Proof.
  assert (length demo_buf = length [0; 0; 0]%float) as Hlen by reflexivity.
  split; [exact Hlen|].
  exact (fill_buffer_overwrites demo_buf [0; 0; 0]%float demo_sqw Hlen).
Defined.

Lemma iir_chunks_witness :
  fits_uint (length ([1; 2]%float ++ [3]%float))
  /\ iir ([1; 2]%float ++ [3]%float) demo_bq
     = ('(a, bq1) ← iir [1; 2]%float demo_bq;
        '(b, bq2) ← iir [3]%float bq1; Some (a ++ b, bq2)).
Proof.
  assert (fits_uint (length ([1; 2]%float ++ [3]%float))) as Hfit
    by reflexivity.
  split; [exact Hfit|].
  exact (iir_chunks [1; 2]%float [3]%float demo_bq Hfit).
Defined.

Lemma empty_buffer_untouched_witness :
  fits_uint (length [demo_bq; demo_bq2])
  /\ apply_filters 2 [] [demo_bq; demo_bq2] = Some ([], [demo_bq; demo_bq2]).
Proof.
  assert (fits_uint (length [demo_bq; demo_bq2])) as Hfit by reflexivity.
  split; [exact Hfit|].
  exact (proj2 (proj2 (empty_buffer_untouched demo_sqw demo_bq
                         [demo_bq; demo_bq2] Hfit))).
Defined.

Lemma run_buffers_frame_witness :
  exists st',
    run_buffers 2 2
      (mkTrialState [0; 0]%float demo_sqw [demo_bq; demo_bq2] [])
    = Some st'
    /\ length (t_buf st') = 2%nat
    /\ switch_samples (t_sqw st') = 3
    /\ map coefficients (t_biquads st')
       = map coefficients [demo_bq; demo_bq2].
Proof.
  eexists. split; [vm_compute; reflexivity|].
  destruct (run_buffers_frame 2
              (mkTrialState [0; 0]%float demo_sqw [demo_bq; demo_bq2] []) _
              ltac:(split; [discriminate | reflexivity])
              ltac:(vm_compute; reflexivity))
    as (Hl & Hs & Hc & _).
  split; [exact Hl|]. split; [exact Hs | exact Hc].
Defined.

Lemma generator_period_witness :
  (1 <= 1 <= 3 /\ 3 < SIZE_MOD /\ fits_uint 6)
  /\ exists out : list float,
       fill_buffer [0; 0; 0; 0; 0; 0]%float (mkSquareWave 3 true 1)
       = Some (out, mkSquareWave 3 true 1).
Proof.
  assert (1 <= 1 <= 3) as Hp by lia.
  assert (3 < SIZE_MOD) as Hsz by reflexivity.
  assert (fits_uint 6) as Hfit by reflexivity.
  split; [exact (conj Hp (conj Hsz Hfit))|].
  exact (generator_period (mkSquareWave 3 true 1) [0; 0; 0; 0; 0; 0]%float
           Hp Hsz eq_refl Hfit).
Defined.

Lemma frequency_above_sample_rate_witness :
  (0 < 48000)%R /\ (48000 < 100000)%R
  /\ exists sqw,
       SquareWave_new 48000%R 100000%R = Some sqw
       /\ switch_samples sqw = 0
       /\ fill_buffer [0; 0]%R (SquareWave_reset sqw)
          = Some (replicate 2 (ddec 5 10), mkSquareWave 0 true 2).
Proof.
  assert (0 < 48000)%R as Hfs by lra.
  assert (48000 < 100000)%R as Hf by lra.
  split; [exact Hfs|]. split; [exact Hf|].
  exact (frequency_above_sample_rate 48000%R 100000%R [0; 0]%R Hfs Hf
           ltac:(discriminate) ltac:(reflexivity)).
Defined.

Lemma iir_superposition_witness :
  exists outx p' outy q',
    iir [1; 2]%R (peak_eq 48000%R 50%R (3 / 10)%R 2%R) = Some (outx, p')
    /\ iir [3; -1]%R (peak_eq 48000%R 50%R (3 / 10)%R 2%R) = Some (outy, q')
    /\ iir (zip_with (fun x y => 2 * x + 5 * y)%R [1; 2]%R [3; -1]%R)
         (blend 2 5 (peak_eq 48000%R 50%R (3 / 10)%R 2%R)
            (peak_eq 48000%R 50%R (3 / 10)%R 2%R))
       = Some (zip_with (fun x y => 2 * x + 5 * y)%R outx outy,
               blend 2 5 p' q').
Proof.
  exact (iir_superposition 2 5 (peak_eq 48000%R 50%R (3 / 10)%R 2%R)
           (peak_eq 48000%R 50%R (3 / 10)%R 2%R) [1; 2]%R [3; -1]%R
           eq_refl eq_refl ltac:(reflexivity)).
Defined.

Lemma iir_silence_witness :
  fits_uint 3
  /\ iir (replicate 3 0%R)
       (Biquad_reset (peak_eq 48000%R 50%R (3 / 10)%R 2%R))
     = Some (replicate 3 0%R,
             Biquad_reset (peak_eq 48000%R 50%R (3 / 10)%R 2%R)).
Proof.
  assert (fits_uint 3) as Hfit by reflexivity.
  split; [exact Hfit|].
  exact (iir_silence (peak_eq 48000%R 50%R (3 / 10)%R 2%R) 3 Hfit).
Defined.

Lemma boost_then_cut_witness :
  ((0 < 3 / 10)%R /\ (0 <= 50)%R /\ (2 * 50 <= 48000)%R /\ (0 < 48000)%R)
  /\ exists biquads,
       apply_filters 2 [1; -1; / 2]%R
         [peak_eq 48000%R 50%R (3 / 10)%R 2%R;
          peak_eq 48000%R 50%R (3 / 10)%R (- 2)%R]
       = Some ([1; -1; / 2]%R, biquads).
Proof.
  assert (0 < 3 / 10)%R as Hq by lra.
  assert (0 <= 50)%R as Hf0 by lra.
  assert (2 * 50 <= 48000)%R as Hny by lra.
  assert (0 < 48000)%R as Hfs by lra.
  split; [exact (conj Hq (conj Hf0 (conj Hny Hfs)))|].
  exact (boost_then_cut 48000%R 50%R (3 / 10)%R 2%R [1; -1; / 2]%R
           Hq Hf0 Hny Hfs ltac:(reflexivity)).
Defined.

Lemma print_elapsed_values_witness :
  (0 < 1000 /\ 0 < 100)
  /\ (0 < (print_elapsed (D:=R) 1000 100).1)%R
  /\ ((print_elapsed (D:=R) 1000 100).1 * IZR (100 * SAMPLE_COUNT)
      = IZR 1000)%R.
Proof.
  assert (0 < 1000) as He by reflexivity.
  assert (0 < 100) as Hf by reflexivity.
  split; [exact (conj He Hf)|].
  destruct (print_elapsed_values 1000 100 He Hf) as (H1 & H2 & _).
  exact (conj H1 H2).
Defined.
